(** * domain_admin/utils/cert_util.py: fetching and summarising a host's TLS certificate

    A shallow embedding of [cert_util.py] and the properties of its target
    parser, its distinguished-name flattening and re-keying, its timestamp
    step and its TLS context factory.

    Layout:
    - [Py]: the fragment of Python the module runs on (exceptions, [str]
      operations, the [int] constructor on text);
    - [Runtime]: the libraries and the network the module calls into
      ([ssl], [socket], [dateutil], [datetime]), taken as parameters;
    - [Calendar]: the calendar arithmetic and the rendering of [datetime]
      and the timestamp format of a certificate, to say what a runtime
      does with a certificate's stamp;
    - the functions of [cert_util.py], under their own names;
    - the properties. *)

From Stdlib Require Import ZArith Ascii List Bool Lia DecimalString.
From stdpp Require Import base option strings list gmap.

Local Open Scope Z_scope.

(** ** The Python fragment *)

Module Py.

(** Exception classes that [cert_util.py] raises itself or lets through
    from a library call. *)
Inductive exn : Type :=
| AttributeError
| IndexError
| KeyError
| TypeError
| ValueError
| OverflowError
| OSError
| gaierror
| SSLError
| SSLCertVerificationError
| ParserError.

(** A call either returns a value or raises. *)
Inductive Result (A : Type) : Type :=
| Ok (a : A)
| Raise (e : exn).
Arguments Ok {A} a.
Arguments Raise {A} e.

#[export] Instance result_ret : MRet Result := fun _ a => Ok a.
#[export] Instance result_bind : MBind Result := fun _ _ k r =>
  match r with
  | Ok a => k a
  | Raise e => Raise e
  end.

(** [c in s] for a one-character needle. *)
Fixpoint contains (c : ascii) (s : string) : bool :=
  match s with
  | EmptyString => false
  | String a r => if Ascii.eqb a c then true else contains c r
  end.

(** [s.count(c)] for a one-character needle. *)
Fixpoint count (c : ascii) (s : string) : nat :=
  match s with
  | EmptyString => 0%nat
  | String a r => ((if Ascii.eqb a c then 1 else 0) + count c r)%nat
  end.

(** [s.split(c)] for a one-character separator: the pieces between the
    separators, in order; never the empty list. *)
Fixpoint split (c : ascii) (s : string) : list string :=
  match s with
  | EmptyString => [EmptyString]
  | String a r =>
      if Ascii.eqb a c then EmptyString :: split c r
      else match split c r with
           | piece :: pieces => String a piece :: pieces
           | [] => [String a EmptyString]
           end
  end.

(** *** [int(text)], base ten

    A [str] is modelled by a [string] whose characters are the code
    points 0 to 255.  On that range the white space that [int] strips is
    TAB, LF, VT, FF, CR, SPACE, NEL (0x85) and NBSP (0xA0), and the only
    decimal digits are "0" to "9". *)

Definition is_space (c : ascii) : bool :=
  let n := N_of_ascii c in
  (((9 <=? n) && (n <=? 13)) || (n =? 32) || (n =? 133) || (n =? 160))%N.

Definition digit_value (c : ascii) : option Z :=
  let n := N_of_ascii c in
  if ((48 <=? n) && (n <=? 57))%N then Some (Z.of_N n - 48) else None.

Fixpoint lstrip (l : list ascii) : list ascii :=
  match l with
  | c :: r => if is_space c then lstrip r else l
  | [] => []
  end.

Definition strip (l : list ascii) : list ascii :=
  rev (lstrip (rev (lstrip l))).

(** The digit scan of [PyLong_FromString]: digits, with single
    underscores allowed between two digits.  [prev_us] tells that the
    previous character was an underscore; the scan returns the value and
    the number of digits read. *)
Fixpoint scan_digits (l : list ascii) (acc : Z) (ndigits : nat) (prev_us : bool)
  : option (Z * nat) :=
  match l with
  | [] => if prev_us then None else Some (acc, ndigits)
  | c :: r =>
      if Ascii.eqb c "_" then
        if prev_us then None else scan_digits r acc ndigits true
      else
        match digit_value c with
        | Some d => scan_digits r (10 * acc + d) (S ndigits) false
        | None => None
        end
  end.

(** [sys.int_info.default_max_str_digits]: longer digit strings are
    refused with [ValueError]. *)
Definition int_max_str_digits : nat := 4300.

Definition int (s : string) : Result Z :=
  let t := strip (String.list_ascii_of_string s) in
  let '(negative, body) :=
    match t with
    | c :: r =>
        if Ascii.eqb c "-" then (true, r)
        else if Ascii.eqb c "+" then (false, r)
        else (false, t)
    | [] => (false, t)
    end in
  match body with
  | [] => Raise ValueError
  | c :: _ =>
      if Ascii.eqb c "_" then Raise ValueError
      else match scan_digits body 0 0%nat false with
           | Some (v, n) =>
               if (int_max_str_digits <? n)%nat then Raise ValueError
               else Ok (if negative then - v else v)
           | None => Raise ValueError
           end
  end.

End Py.
Import Py.

(** ** cert_util.py: the target parser *)

Definition DATETIME_FORMAT : string := "%Y-%m-%d %H:%M:%S".

Definition SSL_DEFAULT_PORT : Z := 443.

Definition DEFAULT_SOCKET_TIMEOUT : Z := 5.

(** The local [port] of [parse_domain_with_port] holds the text right of
    the colon or the integer default. *)
Inductive port_value : Type :=
| PortText (s : string)
| PortInt (n : Z).

(** The returned dict [{'domain': ..., 'port': ...}]. *)
Record DomainInfo : Type := { domain : string; port : Z }.

Definition parse_domain_with_port (domain_with_port : string) : Result DomainInfo :=
  '(domain, port) ←
    (if contains ":" domain_with_port then
       match split ":" domain_with_port with
       | [domain; port] => Ok (domain, PortText port)
       | _ => Raise ValueError
       end
     else Ok (domain_with_port, PortInt SSL_DEFAULT_PORT));
  port ← match port with
          | PortInt n => Ok n
          | PortText s => int s
          end;
  Ok {| domain := domain; port := port |}.

(** ** The libraries and the network

    [cert_util.py] calls into [ssl], [socket], [dateutil.parser] and
    [datetime].  None of them is part of the module; they are parameters
    of the embedding, and so are the hosts on the network. *)

(** [ssl.VerifyMode]. *)
Inductive VerifyMode : Type := CERT_NONE | CERT_OPTIONAL | CERT_REQUIRED.

(** The two trust settings of an [ssl.SSLContext]. *)
Record SSLContext : Type := {
  verify_mode : VerifyMode;
  check_hostname : bool
}.

(** One relative distinguished name as [getpeercert()] gives it: a tuple
    of [(name, value)] pairs. *)
Definition RDN : Type := list (string * string).

(** The dict of [getpeercert()]; a key may be missing (the dict is empty
    when the certificate was not validated). *)
Record RawCertificate : Type := {
  cert_issuer : option (list RDN);
  cert_subject : option (list RDN);
  cert_notBefore : option string;
  cert_notAfter : option string
}.

Record Runtime : Type := {
  (** a connected TCP socket, a TLS socket over it, a [datetime] *)
  socket : Type;
  ssl_socket : Type;
  datetime : Type;
  (** [ssl._create_unverified_context(check_hostname=b)];
      [Raise AttributeError] on a runtime without that function *)
  ssl_create_unverified_context : bool -> Result SSLContext;
  (** [ssl.create_default_context()] *)
  ssl_create_default_context : Result SSLContext;
  (** [socket.create_connection(address=(host, port), timeout=t)] *)
  socket_create_connection : string -> Z -> Z -> Result socket;
  (** whether the chain the peer of a socket presents validates against
      the trust store *)
  peer_trusted : socket -> bool;
  (** [context.wrap_socket(sock, server_hostname=host)]: the handshake *)
  wrap_socket : SSLContext -> socket -> string -> Result ssl_socket;
  (** [wrap_socket.getpeercert()]; [None] when the peer sent none *)
  getpeercert : ssl_socket -> Result (option RawCertificate);
  (** [socket.gethostbyname(domain)] *)
  socket_gethostbyname : string -> Result string;
  (** [dateutil.parser.parse(time_str)] *)
  parser_parse : string -> Result datetime;
  (** [dt.astimezone()]: conversion to the local zone *)
  datetime_astimezone : datetime -> Result datetime;
  (** [dt.strftime(fmt)] *)
  datetime_strftime : datetime -> string -> Result string
}.

(** What the [ssl] documentation promises of a context and of the
    handshake. *)
Record SslContract (rt : Runtime) : Prop := {
  (** the factory hands back the [check_hostname] it was asked for *)
  unverified_keeps_flag : forall b ctx,
    ssl_create_unverified_context rt b = Ok ctx -> check_hostname ctx = b;
  (** [check_hostname] is only ever on together with chain verification *)
  unverified_well_formed : forall b ctx,
    ssl_create_unverified_context rt b = Ok ctx ->
    check_hostname ctx = true -> verify_mode ctx <> CERT_NONE;
  (** the default context verifies *)
  default_verifies : forall ctx,
    ssl_create_default_context rt = Ok ctx -> verify_mode ctx = CERT_REQUIRED;
  (** a verifying context refuses a peer whose chain does not validate *)
  handshake_verifies : forall ctx sock host,
    verify_mode ctx <> CERT_NONE -> peer_trusted rt sock = false ->
    wrap_socket rt ctx sock host = Raise SSLCertVerificationError
}.

(** ** cert_util.py: the certificate fetcher *)

Definition create_ssl_context (rt : Runtime) : Result SSLContext :=
  match ssl_create_unverified_context rt true with
  | Raise AttributeError => ssl_create_default_context rt
  | r => r
  end.

Definition get_domain_cert (rt : Runtime) (host : string) (port : Z)
  : Result (option RawCertificate) :=
  context ← create_ssl_context rt;
  sock ← socket_create_connection rt host port DEFAULT_SOCKET_TIMEOUT;
  wrapped ← wrap_socket rt context sock host;
  getpeercert rt wrapped.

Definition get_domain_ip (rt : Runtime) (domain : string) : Result string :=
  socket_gethostbyname rt domain.

(** ** cert_util.py: the certificate normalizer *)

(** The loop of [_tuple_to_dict]: [data[item[0][0]] = item[0][1]] for each
    item in turn.  [item[0]] raises [IndexError] on an empty item. *)
Fixpoint tuple_to_dict_loop (items : list RDN) (data : gmap string string)
  : Result (gmap string string) :=
  match items with
  | [] => Ok data
  | item :: rest =>
      match item with
      | [] => Raise IndexError
      | (name, value) :: _ => tuple_to_dict_loop rest (<[name := value]> data)
      end
  end.

Definition _tuple_to_dict (cert_tuple : list RDN) : Result (gmap string string) :=
  tuple_to_dict_loop cert_tuple ∅.

(** The table of [_name_convert], in the order it is written. *)
Definition name_map : list (string * string) :=
  [ ("C", "countryName");
    ("CN", "commonName");
    ("O", "organizationName");
    ("OU", "organizationalUnitName");
    ("L", "localityName");
    ("ST", "stateOrProvinceName") ].

(** [data.get(key, '')]. *)
Definition dict_get (data : gmap string string) (key : string) : string :=
  default "" (data !! key).

Definition _name_convert (data : gmap string string) : gmap string string :=
  foldl (fun dct '(key, value) => <[key := dict_get data value]> dct) ∅ name_map.

Definition _parse_time (rt : Runtime) (time_str : string) : Result string :=
  parsed ← parser_parse rt time_str;
  local ← datetime_astimezone rt parsed;
  datetime_strftime rt local DATETIME_FORMAT.

(** [cert[key]]: [TypeError] on [None], [KeyError] on a missing key. *)
Definition cert_item {A} (cert : option RawCertificate)
    (key : RawCertificate -> option A) : Result A :=
  match cert with
  | None => Raise TypeError
  | Some c => match key c with
              | Some v => Ok v
              | None => Raise KeyError
              end
  end.

(** The dict returned by [get_cert_info]. *)
Record CertInfo : Type := {
  info_domain : string;
  info_ip : string;
  info_subject : gmap string string;
  info_issuer : gmap string string;
  info_start_date : string;
  info_expire_date : string
}.

Definition get_cert_info (rt : Runtime) (domain_with_port : string) : Result CertInfo :=
  domain_info ← parse_domain_with_port domain_with_port;
  let domain := domain domain_info in
  let port := port domain_info in
  cert ← get_domain_cert rt domain port;
  issuer_rdns ← cert_item cert cert_issuer;
  issuer ← _tuple_to_dict issuer_rdns;
  subject_rdns ← cert_item cert cert_subject;
  subject ← _tuple_to_dict subject_rdns;
  ip ← get_domain_ip rt domain;
  let subject' := _name_convert subject in
  let issuer' := _name_convert issuer in
  not_before ← cert_item cert cert_notBefore;
  start_date ← _parse_time rt not_before;
  not_after ← cert_item cert cert_notAfter;
  expire_date ← _parse_time rt not_after;
  Ok {| info_domain := domain_with_port;
        info_ip := ip;
        info_subject := subject';
        info_issuer := issuer';
        info_start_date := start_date;
        info_expire_date := expire_date |}.

(** ** Two runtimes to run the functions on

    A small network of three hosts behind one of two [ssl] modules: the
    one of CPython 3.11, whose [SSLContext] setters are transcribed below,
    and one without [_create_unverified_context], on which
    [create_ssl_context] takes its fallback. *)

Module Demo.

(** [context.check_hostname = b]: switching the check on raises the
    verify mode from [CERT_NONE] to [CERT_REQUIRED]. *)
Definition set_check_hostname (b : bool) (ctx : SSLContext) : SSLContext :=
  match b, verify_mode ctx with
  | true, CERT_NONE => {| verify_mode := CERT_REQUIRED; check_hostname := true |}
  | _, m => {| verify_mode := m; check_hostname := b |}
  end.

(** [context.verify_mode = m]: [CERT_NONE] is refused while the host
    name check is on. *)
Definition set_verify_mode (m : VerifyMode) (ctx : SSLContext) : Result SSLContext :=
  match m, check_hostname ctx with
  | CERT_NONE, true => Raise ValueError
  | _, h => Ok {| verify_mode := m; check_hostname := h |}
  end.

(** [SSLContext(PROTOCOL_TLS_CLIENT)]. *)
Definition tls_client_context : SSLContext :=
  {| verify_mode := CERT_REQUIRED; check_hostname := true |}.

(** [ssl._create_unverified_context] of CPython 3.11, with its default
    [cert_reqs=CERT_NONE]. *)
Definition create_unverified_context_311 (check : bool) : Result SSLContext :=
  let context := set_check_hostname check tls_client_context in
  context ← set_verify_mode CERT_NONE context;
  Ok (if check then set_check_hostname true context else context).

Definition no_unverified_context (check : bool) : Result SSLContext :=
  Raise AttributeError.

Inductive host : Type := GoodHost | SelfSignedHost | BadStampHost.

Definition good_cert : RawCertificate :=
  {| cert_issuer := Some [ [("countryName", "US")];
                           [("organizationName", "Example CA")];
                           [("commonName", "Example Root")] ];
     cert_subject := Some [ [("commonName", "example.com")];
                            [("organizationName", "Example Inc")] ];
     cert_notBefore := Some "Jan  1 00:00:00 2020 GMT";
     cert_notAfter := Some "Jan  1 00:00:00 2030 GMT" |}.

Definition self_signed_cert : RawCertificate :=
  {| cert_issuer := Some [ [("commonName", "selfsigned.example")] ];
     cert_subject := Some [ [("commonName", "selfsigned.example")] ];
     cert_notBefore := Some "Jan  1 00:00:00 2020 GMT";
     cert_notAfter := Some "Jan  1 00:00:00 2030 GMT" |}.

Definition bad_stamp_cert : RawCertificate :=
  {| cert_issuer := Some [ [("commonName", "Example Root")] ];
     cert_subject := Some [ [("commonName", "badstamp.example")] ];
     cert_notBefore := Some "the day before yesterday-ish";
     cert_notAfter := Some "Jan  1 00:00:00 2030 GMT" |}.

Definition empty_cert : RawCertificate :=
  {| cert_issuer := None; cert_subject := None;
     cert_notBefore := None; cert_notAfter := None |}.

Definition presented (h : host) : RawCertificate :=
  match h with
  | GoodHost => good_cert
  | SelfSignedHost => self_signed_cert
  | BadStampHost => bad_stamp_cert
  end.

Definition trusted (h : host) : bool :=
  match h with
  | SelfSignedHost => false
  | _ => true
  end.

Definition connect (name : string) (port timeout : Z) : Result host :=
  if (port =? 443) && String.eqb name "good.example" then Ok GoodHost
  else if (port =? 443) && String.eqb name "selfsigned.example" then Ok SelfSignedHost
  else if (port =? 443) && String.eqb name "badstamp.example" then Ok BadStampHost
  else Raise OSError.

Definition handshake (ctx : SSLContext) (h : host) (name : string)
  : Result (SSLContext * host) :=
  match verify_mode ctx with
  | CERT_NONE => Ok (ctx, h)
  | _ => if trusted h then Ok (ctx, h) else Raise SSLCertVerificationError
  end.

Definition peercert (s : SSLContext * host) : Result (option RawCertificate) :=
  match verify_mode (fst s) with
  | CERT_NONE => Ok (Some empty_cert)
  | _ => Ok (Some (presented (snd s)))
  end.

Definition resolve (name : string) : Result string :=
  if String.eqb name "good.example" then Ok "192.0.2.1"
  else if String.eqb name "selfsigned.example" then Ok "192.0.2.2"
  else if String.eqb name "badstamp.example" then Ok "192.0.2.3"
  else Raise gaierror.

(** A parser that knows the two stamps above; its [datetime] is the
    rendering itself and its local zone is UTC. *)
Definition parse (time_str : string) : Result string :=
  if String.eqb time_str "Jan  1 00:00:00 2020 GMT" then Ok "2020-01-01 00:00:00"
  else if String.eqb time_str "Jan  1 00:00:00 2030 GMT" then Ok "2030-01-01 00:00:00"
  else Raise ParserError.

Definition runtime (factory : bool -> Result SSLContext) : Runtime :=
  {| socket := host;
     ssl_socket := SSLContext * host;
     datetime := string;
     ssl_create_unverified_context := factory;
     ssl_create_default_context := Ok tls_client_context;
     socket_create_connection := connect;
     peer_trusted := trusted;
     wrap_socket := handshake;
     getpeercert := peercert;
     socket_gethostbyname := resolve;
     parser_parse := parse;
     datetime_astimezone := fun dt => Ok dt;
     datetime_strftime := fun dt fmt => Ok dt |}.

Definition cpython311 : Runtime := runtime create_unverified_context_311.

Definition fallback : Runtime := runtime no_unverified_context.

(** A runtime whose factory hands out a context that verifies nothing,
    whatever it is asked. *)
Definition unverified : Runtime :=
  runtime (fun _ => Ok {| verify_mode := CERT_NONE; check_hostname := false |}).

End Demo.

(** ** Decimal numerals

    The text of a list of decimal digits and the number it denotes, to say
    what [int] reads. *)

Definition digit_char (d : nat) : ascii := ascii_of_nat (48 + d).

Definition digits_text (ds : list nat) : string :=
  String.string_of_list_ascii (map digit_char ds).

Definition digits_value (ds : list nat) : Z :=
  fold_left (fun acc d => 10 * acc + Z.of_nat d) ds 0.

(** ** Well-shaped names

    The sequence of one-pair groups that [getpeercert()] gives for a list
    of attributes. *)

Definition one_pair_groups (pairs : list (string * string)) : list RDN :=
  map (fun p => [p]) pairs.

(** ** The characters of a port text

    What [int] can meet in a text it accepts: white space, a sign, a
    decimal digit, an underscore. *)

Definition port_char (c : ascii) : bool :=
  is_space c || Ascii.eqb c "+" || Ascii.eqb c "-" || Ascii.eqb c "_"
  || bool_decide (is_Some (digit_value c)).

(** The characters of a text, in order. *)
Definition chars (s : string) : list ascii := String.list_ascii_of_string s.

(** ** Dates and times

    The proleptic Gregorian calendar as [datetime] computes it, the
    rendering of [strftime] on the directives of [DATETIME_FORMAT], and the
    timestamp format of a certificate. *)

Module Calendar.

(** The fields of a [datetime], without its zone. *)
Record civil : Type := {
  year : Z; month : Z; day : Z; hour : Z; minute : Z; second : Z
}.

Definition DAYS_IN_MONTH : list Z :=
  [-1; 31; 28; 31; 30; 31; 30; 31; 31; 30; 31; 30; 31].

Definition DAYS_BEFORE_MONTH : list Z :=
  [-1; 0; 31; 59; 90; 120; 151; 181; 212; 243; 273; 304; 334].

(** [table[i]] for an index inside the table. *)
Definition item (table : list Z) (i : Z) : Z := nth (Z.to_nat i) table 0.

Definition is_leap (y : Z) : bool :=
  (y mod 4 =? 0) && (negb (y mod 100 =? 0) || (y mod 400 =? 0)).

Definition days_before_year (y : Z) : Z :=
  let y := y - 1 in y * 365 + y / 4 - y / 100 + y / 400.

Definition days_in_month (y m : Z) : Z :=
  if (m =? 2) && is_leap y then 29 else item DAYS_IN_MONTH m.

Definition days_before_month (y m : Z) : Z :=
  item DAYS_BEFORE_MONTH m + (if (2 <? m) && is_leap y then 1 else 0).

Definition ymd2ord (y m d : Z) : Z :=
  days_before_year y + days_before_month y m + d.

Definition DI400Y : Z := 146097.
Definition DI100Y : Z := 36524.
Definition DI4Y : Z := 1461.
Definition MAXORDINAL : Z := 3652059.

(** The end of [_ord2ymd]: month and day of the [n]-th day of a year,
    counted from 0. *)
Definition month_day (leapyear : bool) (n : Z) : Z * Z :=
  let month := Z.shiftr (n + 50) 5 in
  let preceding :=
    item DAYS_BEFORE_MONTH month + (if (2 <? month) && leapyear then 1 else 0) in
  let '(month, preceding) :=
    if n <? preceding then
      (month - 1,
       preceding - (item DAYS_IN_MONTH (month - 1)
                    + (if (month - 1 =? 2) && leapyear then 1 else 0)))
    else (month, preceding) in
  (month, n - preceding + 1).

Definition ord2ymd (n : Z) : Z * Z * Z :=
  let n := n - 1 in
  let n400 := n / DI400Y in
  let n := n mod DI400Y in
  let n100 := n / DI100Y in
  let n := n mod DI100Y in
  let n4 := n / DI4Y in
  let n := n mod DI4Y in
  let n1 := n / 365 in
  let n := n mod 365 in
  let year := n400 * 400 + 1 + (n100 * 100 + n4 * 4 + n1) in
  if (n1 =? 4) || (n100 =? 4) then (year - 1, 12, 31)
  else
    let leapyear := (n1 =? 3) && (negb (n4 =? 24) || (n100 =? 3)) in
    let '(month, day) := month_day leapyear n in
    (year, month, day).

(** [date(1970, 1, 1).toordinal()]. *)
Definition EPOCH_ORDINAL : Z := 719163.

(** Seconds since the epoch of the UTC time with the fields [c]. *)
Definition posix (c : civil) : Z :=
  (ymd2ord (year c) (month c) (day c) - EPOCH_ORDINAL) * 86400
  + hour c * 3600 + minute c * 60 + second c.

(** The UTC fields of an instant: the day by [ord2ymd], the time of day by
    two [divmod]s, as [datetime.__add__] does. *)
Definition civil_of (t : Z) : civil :=
  let '(y, m, d) := ord2ymd (t / 86400 + EPOCH_ORDINAL) in
  let seconds := t mod 86400 in
  {| year := y; month := m; day := d;
     hour := seconds / 3600;
     minute := seconds mod 3600 / 60;
     second := seconds mod 3600 mod 60 |}.

(** The instants a [datetime] can hold: ordinals 1 to [MAXORDINAL]. *)
Definition representable (t : Z) : bool :=
  let days := t / 86400 + EPOCH_ORDINAL in
  (0 <? days) && (days <=? MAXORDINAL).

(** *** [strftime]

    The six directives of [DATETIME_FORMAT] and [%%], as the C library
    renders them: the year in decimal as it is, the other fields on two
    digits. *)

Definition decimal (n : Z) : list ascii :=
  chars (NilZero.string_of_uint (N.to_uint (Z.to_N n))).

Definition two_digits (n : Z) : list ascii :=
  let digits := decimal n in
  if (length digits <? 2)%nat then "0"%char :: digits else digits.

Definition directive (d : ascii) (c : civil) : list ascii :=
  if Ascii.eqb d "Y" then decimal (year c)
  else if Ascii.eqb d "m" then two_digits (month c)
  else if Ascii.eqb d "d" then two_digits (day c)
  else if Ascii.eqb d "H" then two_digits (hour c)
  else if Ascii.eqb d "M" then two_digits (minute c)
  else if Ascii.eqb d "S" then two_digits (second c)
  else if Ascii.eqb d "%" then ["%"%char]
  else ["%"%char; d].

Fixpoint strftime_chars (fmt : list ascii) (c : civil) : list ascii :=
  match fmt with
  | [] => []
  | a :: rest =>
      if Ascii.eqb a "%" then
        match rest with
        | d :: rest' => directive d c ++ strftime_chars rest' c
        | [] => ["%"%char]
        end
      else a :: strftime_chars rest c
  end.

Definition strftime (fmt : string) (c : civil) : string :=
  String.string_of_list_ascii (strftime_chars (chars fmt) c).

(** The formats the model covers: each [%] is followed by one of
    [Y m d H M S %]. *)
Fixpoint supported_chars (fmt : list ascii) : bool :=
  match fmt with
  | [] => true
  | a :: rest =>
      if Ascii.eqb a "%" then
        match rest with
        | d :: rest' =>
            existsb (Ascii.eqb d) (chars "YmdHMS%") && supported_chars rest'
        | [] => false
        end
      else supported_chars rest
  end.

Definition supported_format (fmt : string) : bool := supported_chars (chars fmt).

(** *** The canonical format [YYYY-MM-DD HH:MM:SS] *)

Inductive slot : Type := Digit | Lit (c : ascii).

Definition is_digit (c : ascii) : bool := bool_decide (is_Some (digit_value c)).

Fixpoint matches (pattern : list slot) (s : list ascii) : bool :=
  match pattern, s with
  | [], [] => true
  | Digit :: pattern', c :: s' => is_digit c && matches pattern' s'
  | Lit l :: pattern', c :: s' => Ascii.eqb c l && matches pattern' s'
  | _, _ => false
  end.

Definition canonical_pattern : list slot :=
  [Digit; Digit; Digit; Digit; Lit "-"; Digit; Digit; Lit "-"; Digit; Digit;
   Lit " "; Digit; Digit; Lit ":"; Digit; Digit; Lit ":"; Digit; Digit].

Definition canonical_format (s : string) : bool :=
  matches canonical_pattern (chars s).

(** *** The timestamp of a certificate

    [Mon DD HH:MM:SS YYYY GMT], as [ASN1_TIME_print] writes it and the
    [ssl] documentation gives it: an English month abbreviation, the day
    on one or two digits, the time on two digits each, the year on four,
    the zone [GMT], separated by spaces. *)

Definition MONTHS : list string :=
  ["Jan"; "Feb"; "Mar"; "Apr"; "May"; "Jun";
   "Jul"; "Aug"; "Sep"; "Oct"; "Nov"; "Dec"].

Fixpoint index_from (i : Z) (name : string) (names : list string) : option Z :=
  match names with
  | [] => None
  | n :: names' => if String.eqb n name then Some i else index_from (i + 1) name names'
  end.

Fixpoint read_digits_from (acc : Z) (l : list ascii) : option Z :=
  match l with
  | [] => Some acc
  | c :: l' => match digit_value c with
               | Some d => read_digits_from (10 * acc + d) l'
               | None => None
               end
  end.

(** A run of decimal digits, [least] to [most] characters long. *)
Definition read_digits (least most : nat) (s : string) : option Z :=
  let l := chars s in
  if (least <=? length l)%nat && (length l <=? most)%nat
  then read_digits_from 0 l else None.

Definition words (s : string) : list string :=
  List.filter (fun w => negb (String.eqb w "")) (split " " s).

Definition cert_stamp (s : string) : option civil :=
  match words s with
  | [mon; dd; hms; yyyy; zone] =>
      if String.eqb zone "GMT" then
        match split ":" hms with
        | [hh; mm; ss] =>
            m ← index_from 1 mon MONTHS;
            d ← read_digits 1 2 dd;
            h ← read_digits 2 2 hh;
            mi ← read_digits 2 2 mm;
            sec ← read_digits 2 2 ss;
            y ← read_digits 4 4 yyyy;
            Some {| year := y; month := m; day := d;
                    hour := h; minute := mi; second := sec |}
        | _ => None
        end
      else None
  | _ => None
  end.

(** A date and time of day that exist, in a year of four digits. *)
Definition valid_civil (c : civil) : bool :=
  (1000 <=? year c) && (year c <=? 9999)
  && (1 <=? month c) && (month c <=? 12)
  && (1 <=? day c) && (day c <=? days_in_month (year c) (month c))
  && (0 <=? hour c) && (hour c <=? 23)
  && (0 <=? minute c) && (minute c <=? 59)
  && (0 <=? second c) && (second c <=? 59).

End Calendar.
Import Calendar.

(** What [dateutil] and [datetime] do with a certificate's stamp on a
    runtime whose local zone is [gmtoff] seconds east of UTC at a given
    instant.  [view] gives, for a zone-aware [datetime], its instant in
    seconds since the epoch and its offset from UTC. *)
Record TimeContract (rt : Runtime) (view : datetime rt -> option (Z * Z))
    (gmtoff : Z -> Z) : Prop := {
  (** the parser reads a certificate's stamp as that UTC time *)
  parser_reads_stamp : forall stamp c,
    cert_stamp stamp = Some c -> valid_civil c = true ->
    exists dt, parser_parse rt stamp = Ok dt /\ view dt = Some (posix c, 0);
  (** [astimezone()] keeps the instant and takes the local offset *)
  astimezone_is_local : forall dt ts off,
    view dt = Some (ts, off) -> -86400 < gmtoff ts < 86400 ->
    representable ts = true -> representable (ts + gmtoff ts) = true ->
    exists dt', datetime_astimezone rt dt = Ok dt' /\
                view dt' = Some (ts, gmtoff ts);
  (** [strftime] renders the fields of the local time *)
  strftime_renders : forall dt ts off fmt,
    view dt = Some (ts, off) -> supported_format fmt = true ->
    datetime_strftime rt dt fmt = Ok (strftime fmt (civil_of (ts + off)))
}.

(** A runtime with these [dateutil] and [datetime], its local zone at a
    fixed offset; the rest is [Demo.fallback]. *)
Module Clock.

Definition parse (stamp : string) : Result (Z * Z) :=
  match cert_stamp stamp with
  | Some c => if valid_civil c then Ok (posix c, 0) else Raise ParserError
  | None => Raise ParserError
  end.

Definition astimezone (gmtoff : Z -> Z) (dt : Z * Z) : Result (Z * Z) :=
  let ts := fst dt in
  if representable ts && representable (ts + gmtoff ts)
  then Ok (ts, gmtoff ts) else Raise OverflowError.

Definition render (dt : Z * Z) (fmt : string) : Result string :=
  Ok (strftime fmt (civil_of (fst dt + snd dt))).

Definition runtime (gmtoff : Z -> Z) : Runtime :=
  {| socket := Demo.host;
     ssl_socket := SSLContext * Demo.host;
     datetime := Z * Z;
     ssl_create_unverified_context := Demo.no_unverified_context;
     ssl_create_default_context := Ok Demo.tls_client_context;
     socket_create_connection := Demo.connect;
     peer_trusted := Demo.trusted;
     wrap_socket := Demo.handshake;
     getpeercert := Demo.peercert;
     socket_gethostbyname := Demo.resolve;
     parser_parse := parse;
     datetime_astimezone := astimezone gmtoff;
     datetime_strftime := render |}.

Definition view (dt : Z * Z) : option (Z * Z) := Some dt.

End Clock.

(** * Properties *)

(** ** Running the functions *)

Example parse_plain :
  parse_domain_with_port "www.domain.com"
  = Ok {| domain := "www.domain.com"; port := 443 |}.
Proof. reflexivity. Qed.

Example parse_with_port :
  parse_domain_with_port "www.domain.com:8888"
  = Ok {| domain := "www.domain.com"; port := 8888 |}.
Proof. reflexivity. Qed.

Example parse_ipv6_literal : parse_domain_with_port "[::1]:443" = Raise ValueError.
Proof. reflexivity. Qed.

Example unverified_311_plain :
  Demo.create_unverified_context_311 false
  = Ok {| verify_mode := CERT_NONE; check_hostname := false |}.
Proof. reflexivity. Qed.

Example unverified_311_check_hostname :
  Demo.create_unverified_context_311 true = Raise ValueError.
Proof. reflexivity. Qed.

Example cert_info_good :
  get_cert_info Demo.fallback "good.example"
  = Ok {| info_domain := "good.example";
          info_ip := "192.0.2.1";
          info_subject := _name_convert {[ "commonName" := "example.com";
                                           "organizationName" := "Example Inc" ]};
          info_issuer := _name_convert {[ "countryName" := "US";
                                          "organizationName" := "Example CA";
                                          "commonName" := "Example Root" ]};
          info_start_date := "2020-01-01 00:00:00";
          info_expire_date := "2030-01-01 00:00:00" |}.
Proof. vm_compute. reflexivity. Qed.

(** ** Text: [in], [count] and [split] *)

Section SplitFacts.

Variable c : ascii.

Lemma contains_false_count (s : string) :
  contains c s = false <-> count c s = 0%nat.
Proof.
  induction s as [|a r IH]; simpl; [tauto|].
  destruct (Ascii.eqb a c); simpl; [split; intros; discriminate | exact IH].
Qed.

Lemma contains_true_count (s : string) :
  contains c s = true <-> (1 <= count c s)%nat.
Proof.
  destruct (contains c s) eqn:E.
  - split; [intros _ | reflexivity].
    destruct (count c s) eqn:Ec; [|lia].
    apply contains_false_count in Ec. congruence.
  - apply contains_false_count in E. rewrite E. split; [discriminate | lia].
Qed.

Lemma count_app (h p : string) :
  count c (h +:+ p) = (count c h + count c p)%nat.
Proof.
  induction h as [|a r IH]; simpl; [reflexivity|]. rewrite IH. lia.
Qed.

Lemma split_not_nil (s : string) : split c s <> [].
Proof.
  induction s as [|a r IH]; simpl; [discriminate|].
  destruct (Ascii.eqb a c); [discriminate|].
  destruct (split c r); discriminate.
Qed.

Lemma length_split (s : string) : length (split c s) = S (count c s).
Proof.
  induction s as [|a r IH]; simpl; [reflexivity|].
  destruct (Ascii.eqb a c); simpl; [now rewrite IH|].
  destruct (split c r) eqn:E; simpl in *; [discriminate | exact IH].
Qed.

Lemma split_no_sep (s : string) : contains c s = false -> split c s = [s].
Proof.
  induction s as [|a r IH]; simpl; [reflexivity|].
  destruct (Ascii.eqb a c); [discriminate|].
  intros H. now rewrite (IH H).
Qed.

Lemma split_app (h p : string) :
  contains c h = false -> split c (h +:+ String c p) = h :: split c p.
Proof.
  induction h as [|a r IH]; simpl.
  - intros _. now rewrite Ascii.eqb_refl.
  - destruct (Ascii.eqb a c); [discriminate|].
    intros H. now rewrite (IH H).
Qed.

Lemma split_one (s q : string) :
  split c s = [q] -> s = q /\ contains c s = false.
Proof.
  intros H. assert (Hc : count c s = 0%nat).
  { pose proof (length_split s) as L. rewrite H in L. simpl in L. lia. }
  apply contains_false_count in Hc.
  rewrite (split_no_sep s Hc) in H. inversion H; subst. auto.
Qed.

Lemma split_two (s d q : string) :
  split c s = [d; q] ->
  s = d +:+ String c q /\ contains c d = false /\ contains c q = false.
Proof.
  revert d. induction s as [|a r IH]; intros d; simpl; [discriminate|].
  destruct (Ascii.eqb a c) eqn:Ea.
  - intros H. inversion H as [[Hd Hq]]. apply Ascii.eqb_eq in Ea. subst a.
    apply split_one in Hq as [-> Hq]. simpl. auto.
  - destruct (split c r) as [|piece pieces] eqn:E; [discriminate|].
    intros H. inversion H; subst. destruct (IH piece eq_refl) as (-> & Hp & Hq).
    simpl. rewrite Ea. auto.
Qed.

(** A text with exactly one separator splits in one way only. *)
Lemma single_sep_unique (s h p : string) :
  count c s = 1%nat -> s = h +:+ String c p -> split c s = [h; p].
Proof.
  intros Hc ->. rewrite count_app in Hc. simpl in Hc.
  rewrite Ascii.eqb_refl in Hc.
  assert (Hh : contains c h = false) by (apply contains_false_count; lia).
  assert (Hp : contains c p = false) by (apply contains_false_count; lia).
  rewrite (split_app h p Hh). now rewrite (split_no_sep p Hp).
Qed.

End SplitFacts.

(** ** The target parser, case by case *)

Lemma parse_no_colon (s : string) :
  contains ":" s = false ->
  parse_domain_with_port s = Ok {| domain := s; port := SSL_DEFAULT_PORT |}.
Proof. intros H. unfold parse_domain_with_port. now rewrite H. Qed.

Lemma parse_one_colon (h p : string) :
  contains ":" h = false -> contains ":" p = false ->
  parse_domain_with_port (h +:+ ":" +:+ p)
  = (n ← int p; Ok {| domain := h; port := n |}).
Proof.
  intros Hh Hp. unfold parse_domain_with_port.
  assert (Hc : contains ":" (h +:+ ":" +:+ p) = true).
  { apply contains_true_count. rewrite count_app. simpl. lia. }
  rewrite Hc. change (h +:+ ":" +:+ p) with (h +:+ String ":" p).
  rewrite (split_app _ h p Hh), (split_no_sep _ p Hp). reflexivity.
Qed.

Lemma parse_many_colons (s : string) :
  (2 <= count ":" s)%nat -> parse_domain_with_port s = Raise ValueError.
Proof.
  intros H. unfold parse_domain_with_port.
  assert (Hc : contains ":" s = true) by (apply contains_true_count; lia).
  rewrite Hc. pose proof (length_split ":" s) as L.
  destruct (split ":" s) as [|a [|b [|x l]]]; simpl in L; try reflexivity; lia.
Qed.

(** The three cases are all there is. *)
Lemma parse_cases (s : string) :
  (count ":" s = 0%nat /\ contains ":" s = false) \/
  (count ":" s = 1%nat /\
   exists h p, s = h +:+ ":" +:+ p /\ contains ":" h = false /\ contains ":" p = false) \/
  (2 <= count ":" s)%nat.
Proof.
  destruct (count ":" s) as [|[|n]] eqn:E.
  - left. split; [reflexivity | now apply contains_false_count].
  - right; left. split; [reflexivity|].
    pose proof (length_split ":" s) as L. rewrite E in L.
    destruct (split ":" s) as [|h [|p [|x l]]] eqn:Es; simpl in L; try lia.
    exists h, p. apply split_two in Es. exact Es.
  - right; right. lia.
Qed.

Lemma int_raises_value_error (s : string) (e : exn) : int s = Raise e -> e = ValueError.
Proof.
  unfold int. destruct (strip _) as [|c r].
  - intros H. now inversion H.
  - destruct (let '(negative, body) := _ in _) eqn:E; [discriminate|].
    intros H. inversion H; subst e0. clear H.
    revert E.
    repeat match goal with
           | |- context [match ?x with _ => _ end] => destruct x
           end; intros E; inversion E; reflexivity.
Qed.

(** ** What [int] reads on a plain numeral *)

Lemma digit_char_cases (d : nat) :
  (d < 10)%nat ->
  is_space (digit_char d) = false /\
  Ascii.eqb (digit_char d) "_" = false /\
  Ascii.eqb (digit_char d) "-" = false /\
  Ascii.eqb (digit_char d) "+" = false /\
  digit_value (digit_char d) = Some (Z.of_nat d).
Proof.
  intros H. do 10 (destruct d as [|d]; [vm_compute; auto|]). lia.
Qed.

Lemma lstrip_digits (ds : list nat) :
  Forall (fun d => (d < 10)%nat) ds -> lstrip (map digit_char ds) = map digit_char ds.
Proof.
  intros H. destruct H as [|d ds Hd _]; cbn [map lstrip]; [reflexivity|].
  now destruct (digit_char_cases d Hd) as (-> & _).
Qed.

Lemma strip_digits (ds : list nat) :
  Forall (fun d => (d < 10)%nat) ds -> strip (map digit_char ds) = map digit_char ds.
Proof.
  intros H. unfold strip. rewrite (lstrip_digits ds H).
  rewrite <- map_rev. rewrite lstrip_digits by now apply Forall_rev.
  now rewrite map_rev, rev_involutive.
Qed.

Lemma scan_digits_digits (ds : list nat) (acc : Z) (n : nat) :
  Forall (fun d => (d < 10)%nat) ds ->
  scan_digits (map digit_char ds) acc n false
  = Some (fold_left (fun a d => 10 * a + Z.of_nat d) ds acc, (n + length ds)%nat).
Proof.
  intros H. revert acc n.
  induction H as [|d ds Hd _ IH]; intros acc n; cbn [map scan_digits fold_left length].
  - do 2 f_equal. lia.
  - destruct (digit_char_cases d Hd) as (_ & -> & _ & _ & ->).
    rewrite IH. do 2 f_equal. lia.
Qed.

Lemma int_digits (ds : list nat) :
  ds <> [] -> Forall (fun d => (d < 10)%nat) ds ->
  (length ds <= int_max_str_digits)%nat ->
  int (digits_text ds) = Ok (digits_value ds).
Proof.
  intros Hne H Hlen. unfold int, digits_text.
  rewrite String.list_ascii_of_string_of_list_ascii, (strip_digits ds H).
  destruct ds as [|d ds]; [congruence|].
  pose proof (scan_digits_digits (d :: ds) 0 0 H) as Hs.
  inversion H as [|? ? Hd Hds]; subst.
  destruct (digit_char_cases d Hd) as (_ & Hu & Hm & Hp & _).
  change (map digit_char (d :: ds)) with (digit_char d :: map digit_char ds) in *.
  cbv beta iota. rewrite Hm, Hp. cbv beta iota. rewrite Hu, Hs.
  destruct (Nat.ltb_spec int_max_str_digits (0 + length (d :: ds))); [lia|].
  reflexivity.
Qed.

(** ** The target parser: results *)

Lemma parse_ok_inv (s : string) (t : DomainInfo) :
  parse_domain_with_port s = Ok t ->
  (contains ":" s = false /\ t = {| domain := s; port := SSL_DEFAULT_PORT |}) \/
  (count ":" s = 1%nat /\
   exists p, s = domain t +:+ ":" +:+ p /\ contains ":" (domain t) = false /\
             contains ":" p = false /\ int p = Ok (port t)).
Proof.
  intros H. destruct (parse_cases s) as [[_ Hc] | [[Hc (h & p & -> & Hh & Hp)] | Hc]].
  - left. rewrite (parse_no_colon s Hc) in H. inversion H. auto.
  - right. split; [exact Hc|]. rewrite (parse_one_colon h p Hh Hp) in H.
    destruct (int p) as [n|e] eqn:E; simpl in H; [|discriminate].
    inversion H; subst t; simpl. exists p. auto.
  - rewrite (parse_many_colons s Hc) in H. discriminate.
Qed.

(** C2 — Without a colon the whole input is the hostname and the port is
    443.  With a colon, whatever is returned has the text left of the colon
    as hostname and [int] of the text right of it as port, and an input
    [h:p] with a readable [p] does return that; a plain numeral is read as
    the number it denotes.  So "host" yields 443 and "host:8443" yields
    8443. *)
Theorem parse_domain_with_port_splits_at_colon :
  (forall s, contains ":" s = false ->
     parse_domain_with_port s = Ok {| domain := s; port := 443 |}) /\
  (forall s t, contains ":" s = true -> parse_domain_with_port s = Ok t ->
     exists p, s = domain t +:+ ":" +:+ p /\ contains ":" (domain t) = false /\
               contains ":" p = false /\ int p = Ok (port t)) /\
  (forall h p n, contains ":" h = false -> contains ":" p = false -> int p = Ok n ->
     parse_domain_with_port (h +:+ ":" +:+ p) = Ok {| domain := h; port := n |}) /\
  (forall h ds, contains ":" h = false -> ds <> [] ->
     Forall (fun d => (d < 10)%nat) ds -> (length ds <= int_max_str_digits)%nat ->
     parse_domain_with_port (h +:+ ":" +:+ digits_text ds)
     = Ok {| domain := h; port := digits_value ds |}) /\
  parse_domain_with_port "host" = Ok {| domain := "host"; port := 443 |} /\
  parse_domain_with_port "host:8443" = Ok {| domain := "host"; port := 8443 |}.
Proof.
  split; [exact parse_no_colon|].
  split.
  { intros s t Hc H. destruct (parse_ok_inv s t H) as [[Hn _] | [_ Hp]];
      [congruence | exact Hp]. }
  split.
  { intros h p n Hh Hp Hi. rewrite (parse_one_colon h p Hh Hp), Hi. reflexivity. }
  split; [|split; reflexivity].
  intros h ds Hh Hne Hd Hlen.
  assert (Hp : contains ":" (digits_text ds) = false).
  { unfold digits_text. clear Hne Hlen.
    induction Hd as [|d ds Hd _ IH];
      cbn [map String.string_of_list_ascii contains]; [reflexivity|].
    rewrite IH. do 10 (destruct d as [|d]; [reflexivity|]). lia. }
  rewrite (parse_one_colon h _ Hh Hp), (int_digits ds Hne Hd Hlen). reflexivity.
Qed.

Lemma parse_domain_with_port_splits_at_colon_witness :
  parse_domain_with_port "example.org" = Ok {| domain := "example.org"; port := 443 |} /\
  (exists p, "example.org:8443" = "example.org" +:+ ":" +:+ p /\
             contains ":" "example.org" = false /\
             contains ":" p = false /\ int p = Ok 8443) /\
  parse_domain_with_port ("example.org" +:+ ":" +:+ " +8_443 ")
  = Ok {| domain := "example.org"; port := 8443 |} /\
  parse_domain_with_port ("example.org" +:+ ":" +:+ digits_text [8; 4; 4; 3]%nat)
  = Ok {| domain := "example.org"; port := digits_value [8; 4; 4; 3]%nat |}.
Proof.
  destruct parse_domain_with_port_splits_at_colon as (H1 & H2 & H3 & H4 & _).
  split; [apply H1; reflexivity|].
  split; [apply (H2 "example.org:8443" {| domain := "example.org"; port := 8443 |});
          reflexivity|].
  split; [apply H3; reflexivity|].
  apply H4; [reflexivity | discriminate | repeat constructor | vm_compute; lia].
Defined.

(** ** The target parser: failures *)

Lemma parse_raises_value_error (s : string) (e : exn) :
  parse_domain_with_port s = Raise e -> e = ValueError.
Proof.
  intros H. destruct (parse_cases s) as [[_ Hc] | [[Hc (h & p & -> & Hh & Hp)] | Hc]].
  - rewrite (parse_no_colon s Hc) in H. discriminate.
  - rewrite (parse_one_colon h p Hh Hp) in H.
    destruct (int p) as [n|e'] eqn:E; simpl in H; [discriminate|].
    inversion H; subst e'. exact (int_raises_value_error p e E).
  - rewrite (parse_many_colons s Hc) in H. congruence.
Qed.

(** C3, as the code has it — An empty hostname and a negative port are
    accepted: ":443" and "host:-5" both return. *)
Lemma parse_accepts_empty_host_and_negative_port :
  parse_domain_with_port ":443" = Ok {| domain := ""; port := 443 |} /\
  parse_domain_with_port "" = Ok {| domain := ""; port := 443 |} /\
  parse_domain_with_port "host:-5" = Ok {| domain := "host"; port := -5 |}.
Proof. repeat split; reflexivity. Qed.

(** C3, amended — The parser raises only [ValueError], and it raises
    exactly when the input has two or more colons, or has one colon and
    [int] refuses the text right of it, as for "host:notanumber". *)
Theorem parse_domain_with_port_raises_exactly :
  (forall s e, parse_domain_with_port s = Raise e -> e = ValueError) /\
  (forall s,
     parse_domain_with_port s = Raise ValueError <->
     ((2 <= count ":" s)%nat \/
      exists h p, s = h +:+ ":" +:+ p /\ contains ":" h = false /\
                  contains ":" p = false /\ int p = Raise ValueError)) /\
  parse_domain_with_port "host:notanumber" = Raise ValueError /\
  parse_domain_with_port "host:" = Raise ValueError.
Proof.
  split; [exact parse_raises_value_error|].
  split; [|split; reflexivity].
  intros s. split.
  - intros H. destruct (parse_cases s) as [[_ Hc] | [[Hc (h & p & -> & Hh & Hp)] | Hc]].
    + rewrite (parse_no_colon s Hc) in H. discriminate.
    + right. exists h, p. repeat split; try assumption.
      rewrite (parse_one_colon h p Hh Hp) in H.
      destruct (int p) as [n|e] eqn:E; simpl in H; [discriminate | congruence].
    + left. exact Hc.
  - intros [Hc | (h & p & -> & Hh & Hp & Hi)].
    + exact (parse_many_colons s Hc).
    + rewrite (parse_one_colon h p Hh Hp), Hi. reflexivity.
Qed.

Lemma parse_domain_with_port_raises_exactly_witness :
  parse_domain_with_port "a:b:c" = Raise ValueError /\
  parse_domain_with_port "host:0x1bb" = Raise ValueError.
Proof.
  destruct parse_domain_with_port_raises_exactly as (_ & H & _).
  split.
  - apply (H "a:b:c"). left. vm_compute. lia.
  - apply (H "host:0x1bb"). right. exists "host", "0x1bb". repeat split; reflexivity.
Defined.

(** ** The target parser: the port range *)

(** C4, as the code has it — Ports outside 1..65535 are returned. *)
Lemma parse_returns_port_out_of_range :
  parse_domain_with_port "host:70000" = Ok {| domain := "host"; port := 70000 |} /\
  ~ (1 <= 70000 <= 65535) /\
  parse_domain_with_port "host:0" = Ok {| domain := "host"; port := 0 |} /\
  ~ (1 <= 0 <= 65535) /\
  parse_domain_with_port "host:-1" = Ok {| domain := "host"; port := -1 |} /\
  ~ (1 <= -1 <= 65535).
Proof. repeat split; try reflexivity; lia. Qed.

(** C4, amended — A returned port is 443 when the input has no colon.
    When it has one, the input is the returned hostname, the colon and a
    port text, and the returned port is the integer that [int] reads from
    the text right of the colon, unchecked: it lies in 1..65535 exactly
    when the input has no colon or that text reads as an integer in
    1..65535. *)
Theorem parse_domain_with_port_port_range (s : string) (t : DomainInfo) :
  parse_domain_with_port s = Ok t ->
  (contains ":" s = false -> port t = 443) /\
  (contains ":" s = true ->
   exists p, s = domain t +:+ ":" +:+ p /\ int p = Ok (port t)) /\
  (forall h p, s = h +:+ ":" +:+ p -> int p = Ok (port t)) /\
  (1 <= port t <= 65535 <->
   (contains ":" s = false \/
    exists h p n, s = h +:+ ":" +:+ p /\ int p = Ok n /\ 1 <= n <= 65535)).
Proof.
  intros H. destruct (parse_ok_inv s t H) as [[Hc ->] | [Hc (p & Hs & Hh & Hp & Hi)]].
  - split; [reflexivity|]. split; [congruence|]. split.
    + intros h p Hs. exfalso. apply contains_false_count in Hc.
      rewrite Hs, count_app in Hc.
      change (count ":" (":" +:+ p)) with (S (count ":" p)) in Hc. lia.
    + split; [auto | intros _; simpl; unfold SSL_DEFAULT_PORT; lia].
  - assert (Hyes : contains ":" s = true) by (apply contains_true_count; lia).
    assert (Hall : forall h q, s = h +:+ ":" +:+ q -> int q = Ok (port t)).
    { intros h q Hs'.
      pose proof (single_sep_unique ":" s h q Hc Hs') as E1.
      pose proof (single_sep_unique ":" s (domain t) p Hc Hs) as E2.
      rewrite E1 in E2. inversion E2; subst q. exact Hi. }
    split; [congruence|]. split; [intros _; exists p; auto|].
    split; [exact Hall|]. split.
    + intros Hr. right. exists (domain t), p, (port t). auto.
    + intros [Hno | (h & q & n & Hs' & Hn & Hr)]; [congruence|].
      rewrite (Hall h q Hs') in Hn. inversion Hn; subst n. exact Hr.
Qed.

Lemma parse_domain_with_port_port_range_witness :
  (contains ":" "host:8443" = false -> port {| domain := "host"; port := 8443 |} = 443) /\
  (contains ":" "host:8443" = true ->
   exists p, "host:8443" = domain {| domain := "host"; port := 8443 |} +:+ ":" +:+ p /\
             int p = Ok (port {| domain := "host"; port := 8443 |})) /\
  (forall h p, "host:8443" = h +:+ ":" +:+ p ->
               int p = Ok (port {| domain := "host"; port := 8443 |})) /\
  (1 <= port {| domain := "host"; port := 8443 |} <= 65535 <->
   (contains ":" "host:8443" = false \/
    exists h p n, "host:8443" = h +:+ ":" +:+ p /\ int p = Ok n /\ 1 <= n <= 65535)).
Proof.
  apply (parse_domain_with_port_port_range "host:8443"). reflexivity.
Defined.

(** ** Flattening a name: [_tuple_to_dict] *)

Lemma one_pair_groups_not_empty (pairs : list (string * string)) :
  Forall (fun item => item <> []) (one_pair_groups pairs).
Proof. induction pairs; simpl; constructor; [discriminate | assumption]. Qed.

Lemma one_pair_groups_app (pre post : list (string * string)) :
  one_pair_groups (pre ++ post) = one_pair_groups pre ++ one_pair_groups post.
Proof. apply map_app. Qed.

Lemma tuple_to_dict_loop_app (pre post : list RDN) (data : gmap string string) :
  tuple_to_dict_loop (pre ++ post) data
  = (d ← tuple_to_dict_loop pre data; tuple_to_dict_loop post d).
Proof.
  revert data. induction pre as [|item pre IH]; intros data; simpl; [reflexivity|].
  destruct item as [|[name value] others]; [reflexivity | apply IH].
Qed.

Lemma tuple_to_dict_loop_ok (items : list RDN) (data : gmap string string) :
  Forall (fun item => item <> []) items ->
  exists d, tuple_to_dict_loop items data = Ok d.
Proof.
  intros H. revert data. induction H as [|item items Hi _ IH]; intros data; simpl.
  - eauto.
  - destruct item as [|[name value] others]; [congruence | apply IH].
Qed.

(** Groups that do not start with [k] leave the entry of [k] alone. *)
Lemma tuple_to_dict_loop_untouched (items : list RDN) (data d : gmap string string)
    (k : string) :
  Forall (fun item => forall name value others,
            item = (name, value) :: others -> name <> k) items ->
  tuple_to_dict_loop items data = Ok d -> d !! k = data !! k.
Proof.
  intros H. revert data. induction H as [|item items Hi _ IH]; intros data; simpl.
  - intros E. now inversion E.
  - destruct item as [|[name value] others]; [discriminate|].
    intros E. rewrite (IH _ E). apply lookup_insert_ne. exact (Hi _ _ _ eq_refl).
Qed.

Lemma tuple_to_dict_loop_keeps (items : list RDN) (data d : gmap string string)
    (k : string) :
  tuple_to_dict_loop items data = Ok d -> is_Some (data !! k) -> is_Some (d !! k).
Proof.
  revert data. induction items as [|item items IH]; intros data; cbn [tuple_to_dict_loop].
  - intros E. now inversion E.
  - destruct item as [|[name value] others]; [discriminate|].
    intros E Hk. apply (IH _ E). rewrite lookup_insert. case_decide; [eauto | exact Hk].
Qed.

Lemma tuple_to_dict_loop_from (items : list RDN) (data d : gmap string string)
    (k v : string) :
  tuple_to_dict_loop items data = Ok d -> d !! k = Some v ->
  Exists (fun item => exists others, item = (k, v) :: others) items \/ data !! k = Some v.
Proof.
  revert data. induction items as [|item items IH]; intros data; cbn [tuple_to_dict_loop].
  - intros E. inversion E. auto.
  - destruct item as [|[name value] others]; [discriminate|].
    intros E Hk. destruct (IH _ E Hk) as [Hex | Hin].
    + left. now apply Exists_cons_tl.
    + rewrite lookup_insert in Hin. case_decide; [|auto].
      left. apply Exists_cons_hd. exists others. congruence.
Qed.

(** C6 — Over one-pair groups the last group carrying a name decides its
    value: whatever precedes the group [(k, v)], if no later group carries
    [k] the flat mapping is returned and maps [k] to [v]. *)
Theorem tuple_to_dict_last_write_wins
    (pre post : list (string * string)) (k v : string) :
  Forall (fun p => fst p <> k) post ->
  exists d, _tuple_to_dict (one_pair_groups (pre ++ (k, v) :: post)) = Ok d /\
            d !! k = Some v.
Proof.
  intros Hpost. unfold _tuple_to_dict.
  rewrite one_pair_groups_app, tuple_to_dict_loop_app.
  destruct (tuple_to_dict_loop_ok _ ∅ (one_pair_groups_not_empty pre)) as [d0 E0].
  rewrite E0. cbn [mbind result_bind one_pair_groups map tuple_to_dict_loop].
  destruct (tuple_to_dict_loop_ok _ (<[k:=v]> d0) (one_pair_groups_not_empty post))
    as [d E].
  exists d. split; [exact E|].
  rewrite (tuple_to_dict_loop_untouched _ _ d k) with (2 := E).
  - apply lookup_insert_eq.
  - clear E. induction Hpost as [|p post Hp _ IH]; simpl; constructor; [|exact IH].
    intros name value others Hitem. inversion Hitem; subst. exact Hp.
Qed.

Lemma tuple_to_dict_last_write_wins_witness :
  exists d,
    _tuple_to_dict [ [("commonName", "first.example")];
                     [("organizationName", "Example Inc")];
                     [("commonName", "second.example")];
                     [("countryName", "US")] ] = Ok d /\
    d !! "commonName" = Some "second.example".
Proof.
  apply (tuple_to_dict_last_write_wins
           [("commonName", "first.example"); ("organizationName", "Example Inc")]
           [("countryName", "US")] "commonName" "second.example").
  repeat constructor. simpl. discriminate.
Defined.

(** C7, as the code has it — A group with no pair makes the flattening
    raise [IndexError]. *)
Lemma tuple_to_dict_raises_on_empty_group :
  _tuple_to_dict [ [("commonName", "example.com")]; [] ] = Raise IndexError.
Proof. reflexivity. Qed.

(** C7, amended — The flattening returns a mapping exactly when every
    group has at least one pair, and otherwise raises [IndexError].  A
    group with several pairs is not skipped: its first pair is stored, so
    the mapping gives under a name the value of the last group that leads
    with it, however many pairs that group has; the other pairs of a group
    are ignored, and whatever the mapping holds is the first pair of some
    group. *)
Theorem tuple_to_dict_returns_iff_no_empty_group :
  (forall items,
     (exists d, _tuple_to_dict items = Ok d) <-> Forall (fun item => item <> []) items) /\
  (forall items e, _tuple_to_dict items = Raise e -> e = IndexError) /\
  (forall items, _tuple_to_dict items = _tuple_to_dict (map (take 1) items)) /\
  (forall pre name value others post,
     Forall (fun item => item <> []) pre ->
     Forall (fun item => item <> []) post ->
     Forall (fun item => forall n v o, item = (n, v) :: o -> n <> name) post ->
     exists d,
       _tuple_to_dict (pre ++ ((name, value) :: others) :: post) = Ok d /\
       d !! name = Some value) /\
  (forall items d name value,
     _tuple_to_dict items = Ok d -> d !! name = Some value ->
     Exists (fun item => exists others, item = (name, value) :: others) items).
Proof.
  unfold _tuple_to_dict. split; [|split; [|split; [|split]]].
  - intros items. split; [|apply tuple_to_dict_loop_ok].
    generalize (∅ : gmap string string).
    induction items as [|item items IH]; intros data [d E]; [constructor|].
    simpl in E. destruct item as [|[name value] others]; [discriminate|].
    constructor; [discriminate | eapply IH; eauto].
  - intros items. generalize (∅ : gmap string string).
    induction items as [|item items IH]; intros data e; simpl; [discriminate|].
    destruct item as [|[name value] others]; [congruence | apply IH].
  - intros items. generalize (∅ : gmap string string).
    induction items as [|item items IH]; intros data; simpl; [reflexivity|].
    destruct item as [|[name value] others]; [reflexivity | apply IH].
  - intros pre name value others post Hpre Hpost Hlast.
    rewrite tuple_to_dict_loop_app.
    destruct (tuple_to_dict_loop_ok pre ∅ Hpre) as [d0 E0]. rewrite E0.
    cbn [mbind result_bind tuple_to_dict_loop].
    destruct (tuple_to_dict_loop_ok post (<[name:=value]> d0) Hpost) as [d E].
    exists d. split; [exact E|].
    rewrite (tuple_to_dict_loop_untouched post _ d name Hlast E).
    apply lookup_insert_eq.
  - intros items d name value E Hv.
    destruct (tuple_to_dict_loop_from _ _ _ _ _ E Hv) as [Hex | Hin]; [exact Hex|].
    rewrite lookup_empty in Hin. discriminate.
Qed.

Lemma tuple_to_dict_returns_iff_no_empty_group_witness :
  (exists d, _tuple_to_dict [ [("commonName", "a"); ("organizationName", "b")] ] = Ok d) /\
  _tuple_to_dict [ [("commonName", "a"); ("organizationName", "b")] ]
  = Ok {[ "commonName" := "a" ]} /\
  (exists d, _tuple_to_dict [ [("countryName", "US")];
                              [("commonName", "a"); ("organizationName", "b")];
                              [("localityName", "c")] ] = Ok d /\
             d !! "commonName" = Some "a") /\
  Exists (fun item => exists others, item = ("commonName", "a") :: others)
    [ [("commonName", "a"); ("organizationName", "b")] ].
Proof.
  destruct tuple_to_dict_returns_iff_no_empty_group as (H1 & _ & H3 & H4 & H5).
  split; [|split; [|split]].
  - apply H1. repeat constructor. discriminate.
  - rewrite H3. reflexivity.
  - apply (H4 [ [("countryName", "US")] ] "commonName" "a"
              [("organizationName", "b")] [ [("localityName", "c")] ]).
    + repeat constructor. discriminate.
    + repeat constructor. discriminate.
    + repeat constructor. intros n v o E. inversion E. discriminate.
  - apply (H5 _ {[ "commonName" := "a" ]}); reflexivity.
Defined.

(** ** Re-keying a name: [_name_convert] *)

Lemma dict_get_absent (data : gmap string string) (key : string) :
  data !! key = None -> dict_get data key = "".
Proof. unfold dict_get. now intros ->. Qed.

Lemma dict_get_present (data : gmap string string) (key v : string) :
  data !! key = Some v -> dict_get data key = v.
Proof. unfold dict_get. now intros ->. Qed.

(** The result, entry by entry. *)
Lemma name_convert_unfold (data : gmap string string) :
  _name_convert data
  = <["ST" := dict_get data "stateOrProvinceName"]>
      (<["L" := dict_get data "localityName"]>
         (<["OU" := dict_get data "organizationalUnitName"]>
            (<["O" := dict_get data "organizationName"]>
               (<["CN" := dict_get data "commonName"]>
                  (<["C" := dict_get data "countryName"]> ∅))))).
Proof. reflexivity. Qed.

Lemma name_convert_lookup (data : gmap string string) (short long : string) :
  In (short, long) name_map ->
  _name_convert data !! short = Some (dict_get data long).
Proof.
  rewrite name_convert_unfold. unfold name_map. simpl.
  intros H; repeat destruct H as [H|H]; try contradiction;
    inversion H; subst; clear H; by simplify_map_eq.
Qed.

(** C5 — Each of the six short codes is a key of the result: it carries
    the value of its long name when the input has one and the empty string
    when it has none.  The mapping with a common name and an organization
    only is re-keyed as the specification says. *)
Theorem name_convert_all_six_keys :
  (forall data short long, In (short, long) name_map ->
     is_Some (_name_convert data !! short) /\
     (data !! long = None -> _name_convert data !! short = Some "") /\
     (forall v, data !! long = Some v -> _name_convert data !! short = Some v)) /\
  map fst name_map = ["C"; "CN"; "O"; "OU"; "L"; "ST"] /\
  _name_convert {[ "commonName" := "example.com"; "organizationName" := "Example Inc" ]}
  = {[ "C" := ""; "CN" := "example.com"; "O" := "Example Inc";
       "OU" := ""; "L" := ""; "ST" := "" ]}.
Proof.
  split; [|split; [reflexivity|]].
  - intros data short long Hin. rewrite (name_convert_lookup data short long Hin).
    split; [eauto|]. split.
    + intros H. now rewrite (dict_get_absent _ _ H).
    + intros v H. now rewrite (dict_get_present _ _ _ H).
  - vm_compute. reflexivity.
Qed.

Lemma name_convert_all_six_keys_witness :
  is_Some (_name_convert {[ "commonName" := "example.com" ]} !! "OU") /\
  _name_convert {[ "commonName" := "example.com" ]} !! "OU" = Some "" /\
  _name_convert {[ "commonName" := "example.com" ]} !! "CN" = Some "example.com".
Proof.
  destruct name_convert_all_six_keys as (H & _).
  destruct (H {[ "commonName" := "example.com" ]} "OU" "organizationalUnitName")
    as (H1 & H2 & _); [simpl; tauto|].
  destruct (H {[ "commonName" := "example.com" ]} "CN" "commonName")
    as (_ & _ & H3); [simpl; tauto|].
  split; [exact H1|]. split; [apply H2; reflexivity | apply H3; reflexivity].
Defined.

(** C10 — The result has the six short codes as keys and no other, and it
    is a function of the input's entries at the six long names: two inputs
    that agree there are re-keyed alike, whatever else they hold. *)
Theorem name_convert_depends_on_six_names_only :
  (forall data,
     dom (_name_convert data) = list_to_set ["C"; "CN"; "O"; "OU"; "L"; "ST"]) /\
  (forall data1 data2 : gmap string string,
     Forall (fun long => data1 !! long = data2 !! long)
       ["countryName"; "commonName"; "organizationName";
        "organizationalUnitName"; "localityName"; "stateOrProvinceName"] ->
     _name_convert data1 = _name_convert data2).
Proof.
  split.
  - intros data. rewrite name_convert_unfold. rewrite !dom_insert_L, dom_empty_L.
    simpl. set_solver.
  - intros data1 data2 H. rewrite !name_convert_unfold. unfold dict_get.
    repeat match goal with
           | H : Forall _ (_ :: _) |- _ =>
               let E := fresh "E" in
               apply Forall_cons in H as [E H]; rewrite E
           end.
    reflexivity.
Qed.

Lemma name_convert_depends_on_six_names_only_witness :
  _name_convert {[ "commonName" := "example.com" ]}
  = _name_convert {[ "commonName" := "example.com";
                     "emailAddress" := "admin@example.com" ]}.
Proof.
  destruct name_convert_depends_on_six_names_only as (_ & H).
  apply H. repeat constructor.
Defined.

(** ** The timestamp step: [_parse_time] inside [get_cert_info] *)

Lemma parse_time_raises (rt : Runtime) (time_str : string) (e : exn) :
  parser_parse rt time_str = Raise e -> _parse_time rt time_str = Raise e.
Proof. intros H. unfold _parse_time. now rewrite H. Qed.

(** Every stage of [get_cert_info] either hands its value on or ends the
    call with what it raised. *)
Ltac stage :=
  match goal with
  | |- context [mbind _ ?r] =>
      match r with
      | Ok _ => cbn [mbind result_bind]
      | Raise _ => cbn [mbind result_bind]
      | _ => let E := fresh "E" in destruct r eqn:E; cbn [mbind result_bind]
      end
  end.

(** C9 — When the parser refuses a timestamp, [_parse_time] raises what
    the parser raised, and [get_cert_info] returns no summary for a target
    whose certificate carries that timestamp as [notBefore] or [notAfter];
    when the stages before the timestamps pass and [notBefore] is the
    refused one, the call ends with the parser's own exception. *)
Theorem parse_time_failure_aborts (rt : Runtime) (time_str : string) (e : exn) :
  parser_parse rt time_str = Raise e ->
  _parse_time rt time_str = Raise e /\
  (forall domain_with_port t cert,
     parse_domain_with_port domain_with_port = Ok t ->
     get_domain_cert rt (domain t) (port t) = Ok (Some cert) ->
     cert_notBefore cert = Some time_str \/ cert_notAfter cert = Some time_str ->
     exists e', get_cert_info rt domain_with_port = Raise e') /\
  (forall domain_with_port t cert issuer_rdns subject_rdns issuer subject ip,
     parse_domain_with_port domain_with_port = Ok t ->
     get_domain_cert rt (domain t) (port t) = Ok (Some cert) ->
     cert_issuer cert = Some issuer_rdns -> _tuple_to_dict issuer_rdns = Ok issuer ->
     cert_subject cert = Some subject_rdns -> _tuple_to_dict subject_rdns = Ok subject ->
     get_domain_ip rt (domain t) = Ok ip ->
     cert_notBefore cert = Some time_str ->
     get_cert_info rt domain_with_port = Raise e).
Proof.
  intros Hparse. pose proof (parse_time_raises rt time_str e Hparse) as Htime.
  split; [exact Htime|]. split.
  - intros input t cert Ht Hcert Hstamp. unfold get_cert_info.
    rewrite Ht. cbn [mbind result_bind]. rewrite Hcert. cbn [mbind result_bind].
    repeat (stage; [|eauto]).
    exfalso. unfold cert_item in *.
    destruct Hstamp as [Hs | Hs]; rewrite Hs in *;
      repeat match goal with
             | H : Ok _ = Ok _ |- _ => inversion H; clear H; subst
             end; congruence.
  - intros input t cert irdns srdns issuer subject ip Ht Hcert Hi Hid Hs Hsd Hip Hnb.
    unfold get_cert_info.
    rewrite Ht. cbn [mbind result_bind]. rewrite Hcert. cbn [mbind result_bind].
    unfold cert_item. rewrite Hi. cbn [mbind result_bind]. rewrite Hid.
    cbn [mbind result_bind]. rewrite Hs. cbn [mbind result_bind]. rewrite Hsd.
    cbn [mbind result_bind]. rewrite Hip. cbn [mbind result_bind]. rewrite Hnb.
    cbn [mbind result_bind]. rewrite Htime. reflexivity.
Qed.

Lemma parse_time_failure_aborts_witness :
  _parse_time Demo.fallback "the day before yesterday-ish" = Raise ParserError /\
  (exists e', get_cert_info Demo.fallback "badstamp.example" = Raise e') /\
  get_cert_info Demo.fallback "badstamp.example:443" = Raise ParserError.
Proof.
  destruct (parse_time_failure_aborts Demo.fallback "the day before yesterday-ish"
              ParserError eq_refl) as (H1 & H2 & H3).
  split; [exact H1|]. split.
  - apply (H2 "badstamp.example" {| domain := "badstamp.example"; port := 443 |}
             Demo.bad_stamp_cert); [reflexivity | reflexivity | left; reflexivity].
  - eapply (H3 "badstamp.example:443" {| domain := "badstamp.example"; port := 443 |}
              Demo.bad_stamp_cert); reflexivity.
Defined.

(** ** The TLS context: [create_ssl_context] and [get_domain_cert] *)

Lemma cpython311_contract : SslContract Demo.cpython311.
Proof.
  split.
  - intros [] ctx; simpl; intros H; inversion H; reflexivity.
  - intros [] ctx; simpl; intros H; inversion H; subst; discriminate.
  - intros ctx; simpl; intros H; inversion H; reflexivity.
  - intros ctx sock host Hv Ht. simpl in *. unfold Demo.handshake.
    rewrite Ht. now destruct (verify_mode ctx).
Qed.

Lemma fallback_contract : SslContract Demo.fallback.
Proof.
  split.
  - intros b ctx; simpl; discriminate.
  - intros b ctx; simpl; discriminate.
  - intros ctx; simpl; intros H; inversion H; reflexivity.
  - intros ctx sock host Hv Ht. simpl in *. unfold Demo.handshake.
    rewrite Ht. now destruct (verify_mode ctx).
Qed.

(** Whatever context the factory returns, it verifies the chain: the
    unverified context is asked for with [check_hostname=True], and the
    fallback is the default context. *)
Lemma create_ssl_context_verifies (rt : Runtime) (ctx : SSLContext) :
  SslContract rt -> create_ssl_context rt = Ok ctx -> verify_mode ctx <> CERT_NONE.
Proof.
  intros C. unfold create_ssl_context.
  destruct (ssl_create_unverified_context rt true) as [c|e] eqn:E.
  - intros H; inversion H; subst c.
    apply (unverified_well_formed rt C true ctx E).
    exact (unverified_keeps_flag rt C true ctx E).
  - intros H. assert (Hd : ssl_create_default_context rt = Ok ctx)
      by (destruct e; congruence).
    rewrite (default_verifies rt C ctx Hd). discriminate.
Qed.

(** C1, as the code has it — On a runtime that keeps the promises of
    [ssl], a reachable peer whose chain does not validate never gets its
    certificate returned: [get_domain_cert] raises, at the context factory
    or with [SSLCertVerificationError] at the handshake. *)
Theorem get_domain_cert_refuses_untrusted_peer
    (rt : Runtime) (host : string) (port : Z) (sock : socket rt) :
  SslContract rt ->
  socket_create_connection rt host port DEFAULT_SOCKET_TIMEOUT = Ok sock ->
  peer_trusted rt sock = false ->
  get_domain_cert rt host port = Raise SSLCertVerificationError \/
  exists e, create_ssl_context rt = Raise e /\ get_domain_cert rt host port = Raise e.
Proof.
  intros C Hsock Hpeer. unfold get_domain_cert.
  destruct (create_ssl_context rt) as [ctx|e] eqn:E; cbn [mbind result_bind].
  - left. rewrite Hsock. cbn [mbind result_bind].
    rewrite (handshake_verifies rt C ctx sock host
               (create_ssl_context_verifies rt ctx C E) Hpeer).
    reflexivity.
  - right. eauto.
Qed.

Lemma get_domain_cert_refuses_untrusted_peer_witness :
  (get_domain_cert Demo.fallback "selfsigned.example" 443 = Raise SSLCertVerificationError \/
   exists e, create_ssl_context Demo.fallback = Raise e /\
             get_domain_cert Demo.fallback "selfsigned.example" 443 = Raise e) /\
  (get_domain_cert Demo.cpython311 "selfsigned.example" 443 = Raise SSLCertVerificationError \/
   exists e, create_ssl_context Demo.cpython311 = Raise e /\
             get_domain_cert Demo.cpython311 "selfsigned.example" 443 = Raise e).
Proof.
  split.
  - apply (get_domain_cert_refuses_untrusted_peer Demo.fallback "selfsigned.example" 443
             Demo.SelfSignedHost fallback_contract); reflexivity.
  - apply (get_domain_cert_refuses_untrusted_peer Demo.cpython311 "selfsigned.example" 443
             Demo.SelfSignedHost cpython311_contract); reflexivity.
Defined.

Example self_signed_on_fallback :
  get_domain_cert Demo.fallback "selfsigned.example" 443 = Raise SSLCertVerificationError.
Proof. reflexivity. Qed.

Example self_signed_on_cpython311 :
  create_ssl_context Demo.cpython311 = Raise ValueError /\
  get_domain_cert Demo.cpython311 "selfsigned.example" 443 = Raise ValueError /\
  get_domain_cert Demo.cpython311 "good.example" 443 = Raise ValueError.
Proof. repeat split; reflexivity. Qed.

(** * Further properties *)

(** ** White space and [strip] *)

Lemma lstrip_spaces_app (ws l : list ascii) :
  Forall (fun c => is_space c = true) ws -> lstrip (ws ++ l) = lstrip l.
Proof.
  induction 1 as [|c ws Hc _ IH]; cbn [app lstrip]; [reflexivity|].
  now rewrite Hc.
Qed.

Lemma lstrip_app_spaces (l ws : list ascii) :
  Forall (fun c => is_space c = true) ws ->
  lstrip (l ++ ws) = match lstrip l with [] => [] | _ => lstrip l ++ ws end.
Proof.
  intros Hws. induction l as [|c l IH]; cbn [app lstrip].
  - rewrite <- (app_nil_r ws) at 1. now rewrite (lstrip_spaces_app ws [] Hws).
  - destruct (is_space c); [exact IH | reflexivity].
Qed.

Lemma strip_spaces_around (ws l ws' : list ascii) :
  Forall (fun c => is_space c = true) ws ->
  Forall (fun c => is_space c = true) ws' ->
  strip (ws ++ l ++ ws') = strip l.
Proof.
  intros Hws Hws'. unfold strip.
  rewrite (lstrip_spaces_app ws _ Hws), (lstrip_app_spaces l ws' Hws').
  destruct (lstrip l) as [|c m] eqn:E; [reflexivity|].
  rewrite rev_app_distr.
  now rewrite (lstrip_spaces_app (rev ws') _ (Forall_rev Hws')).
Qed.

(** A text is its stripped middle between two runs of white space. *)
Lemma lstrip_decompose (l : list ascii) :
  exists ws, l = ws ++ lstrip l /\ Forall (fun c => is_space c = true) ws.
Proof.
  induction l as [|c l (ws & E & Hws)]; cbn [lstrip].
  - exists []. split; [reflexivity | constructor].
  - destruct (is_space c) eqn:Hc.
    + exists (c :: ws). split; [cbn [app]; congruence | now constructor].
    + exists []. split; [reflexivity | constructor].
Qed.

Lemma strip_decompose (l : list ascii) :
  exists ws ws', l = ws ++ strip l ++ ws' /\
                 Forall (fun c => is_space c = true) ws /\
                 Forall (fun c => is_space c = true) ws'.
Proof.
  destruct (lstrip_decompose l) as (ws & E & Hws).
  destruct (lstrip_decompose (rev (lstrip l))) as (ws' & E' & Hws').
  exists ws, (rev ws'). split; [|split; [exact Hws | now apply Forall_rev]].
  unfold strip. rewrite <- rev_app_distr, <- E', rev_involutive. exact E.
Qed.

Lemma chars_app (a b : string) : chars (a +:+ b) = chars a ++ chars b.
Proof.
  unfold chars. induction a as [|c a IH]; simpl; [reflexivity | now f_equal].
Qed.

Lemma contains_chars (c : ascii) (s : string) :
  contains c s = true <-> In c (chars s).
Proof.
  unfold chars. induction s as [|a r IH]; cbn; [split; [discriminate | tauto]|].
  destruct (Ascii.eqb_spec a c) as [->|Hne]; [tauto|].
  rewrite IH. split; [tauto | intros [H|H]; [congruence | exact H]].
Qed.

Lemma count_spaces (ws : string) :
  Forall (fun c => is_space c = true) (chars ws) -> count ":" ws = 0%nat.
Proof.
  intros H. apply contains_false_count.
  destruct (contains ":" ws) eqn:E; [|reflexivity].
  apply contains_chars in E. rewrite Forall_forall in H.
  apply list_elem_of_In in E. specialize (H _ E). discriminate.
Qed.

Lemma count_colon_join (h p : string) :
  count ":" (h +:+ ":" +:+ p) = S (count ":" h + count ":" p).
Proof.
  rewrite count_app. change (count ":" (":" +:+ p)) with (S (count ":" p)). lia.
Qed.

Lemma int_spaces_around (ws p ws' : string) :
  Forall (fun c => is_space c = true) (chars ws) ->
  Forall (fun c => is_space c = true) (chars ws') ->
  int (ws +:+ p +:+ ws') = int p.
Proof.
  intros Hws Hws'. unfold int.
  change (String.list_ascii_of_string (ws +:+ p +:+ ws')) with (chars (ws +:+ p +:+ ws')).
  rewrite !chars_app, (strip_spaces_around _ _ _ Hws Hws'). reflexivity.
Qed.

(** X1 — White space around the port text is ignored: padding the text
    right of the colon with white space on either side changes nothing of
    what the parser returns or raises, for any hostname and port text. *)
Theorem parse_domain_with_port_ignores_space_around_port (h ws p ws' : string) :
  Forall (fun c => is_space c = true) (chars ws) ->
  Forall (fun c => is_space c = true) (chars ws') ->
  parse_domain_with_port (h +:+ ":" +:+ ws +:+ p +:+ ws')
  = parse_domain_with_port (h +:+ ":" +:+ p).
Proof.
  intros Hws Hws'.
  assert (Hcount : count ":" (ws +:+ p +:+ ws') = count ":" p).
  { rewrite !count_app, (count_spaces ws Hws), (count_spaces ws' Hws'). lia. }
  destruct (contains ":" h) eqn:Hh.
  { apply contains_true_count in Hh.
    rewrite !parse_many_colons; [reflexivity | |]; rewrite count_colon_join; lia. }
  destruct (contains ":" p) eqn:Hp.
  { apply contains_true_count in Hp.
    rewrite !parse_many_colons; [reflexivity | |]; rewrite count_colon_join; lia. }
  assert (Hp' : contains ":" (ws +:+ p +:+ ws') = false).
  { apply contains_false_count. apply contains_false_count in Hp. lia. }
  rewrite (parse_one_colon h _ Hh Hp'), (parse_one_colon h p Hh Hp).
  now rewrite (int_spaces_around ws p ws' Hws Hws').
Qed.

Lemma parse_domain_with_port_ignores_space_around_port_witness :
  parse_domain_with_port ("example.org" +:+ ":" +:+ " " +:+ "8443" +:+ String "010" "")
  = parse_domain_with_port ("example.org" +:+ ":" +:+ "8443").
Proof.
  apply (parse_domain_with_port_ignores_space_around_port
           "example.org" " " "8443" (String "010" ""));
    repeat constructor.
Defined.

(** ** The characters [int] accepts *)

Lemma space_is_port_char (c : ascii) : is_space c = true -> port_char c = true.
Proof. unfold port_char. now intros ->. Qed.

Lemma scan_digits_chars (l : list ascii) (acc : Z) (n : nat) (prev_us : bool)
    (r : Z * nat) :
  scan_digits l acc n prev_us = Some r -> Forall (fun c => port_char c = true) l.
Proof.
  revert acc n prev_us. induction l as [|c l IH]; intros acc n prev_us; [constructor|].
  cbn [scan_digits]. destruct (Ascii.eqb c "_") eqn:Eu.
  - destruct prev_us; [discriminate|]. intros H. constructor; [|exact (IH _ _ _ H)].
    unfold port_char. rewrite Eu. now rewrite !orb_true_r.
  - destruct (digit_value c) as [d|] eqn:Ed; [|discriminate].
    intros H. constructor; [|exact (IH _ _ _ H)].
    unfold port_char. rewrite Ed. rewrite bool_decide_eq_true_2 by eauto.
    now rewrite !orb_true_r.
Qed.

Lemma int_ok_chars (s : string) (n : Z) :
  int s = Ok n -> Forall (fun c => port_char c = true) (chars s).
Proof.
  unfold int. fold (chars s).
  destruct (strip_decompose (chars s)) as (ws & ws' & E & Hws & Hws').
  intros H. rewrite E.
  assert (Hmid : Forall (fun c => port_char c = true) (strip (chars s))).
  { destruct (strip (chars s)) as [|c t]; [constructor|].
    destruct (Ascii.eqb c "-") eqn:Em; [|destruct (Ascii.eqb c "+") eqn:Ep].
    - constructor.
      + unfold port_char. rewrite Em. now rewrite !orb_true_r.
      + destruct t as [|c' t']; [constructor|].
        destruct (Ascii.eqb c' "_"); [discriminate|].
        destruct (scan_digits (c' :: t') 0 0 false) as [r|] eqn:Es; [|discriminate].
        exact (scan_digits_chars _ _ _ _ _ Es).
    - constructor.
      + unfold port_char. rewrite Ep. now rewrite !orb_true_r.
      + destruct t as [|c' t']; [constructor|].
        destruct (Ascii.eqb c' "_"); [discriminate|].
        destruct (scan_digits (c' :: t') 0 0 false) as [r|] eqn:Es; [|discriminate].
        exact (scan_digits_chars _ _ _ _ _ Es).
    - destruct (Ascii.eqb c "_"); [discriminate|].
      destruct (scan_digits (c :: t) 0 0 false) as [r|] eqn:Es; [|discriminate].
      exact (scan_digits_chars _ _ _ _ _ Es). }
  repeat (apply Forall_app; split); try assumption;
    eapply Forall_impl; eauto using space_is_port_char.
Qed.

(** X2 — When the text after a colon of the input holds any character
    other than white space, a sign, an underscore or a decimal digit, the
    parser raises [ValueError], whatever stands before that colon; so it
    does on a URL such as "https://example.org". *)
Theorem parse_domain_with_port_refuses_foreign_port_char (h p : string) :
  Exists (fun c => port_char c = false) (chars p) ->
  parse_domain_with_port (h +:+ ":" +:+ p) = Raise ValueError.
Proof.
  intros Hbad.
  destruct (Nat.le_gt_cases 2 (count ":" (h +:+ ":" +:+ p))) as [Hc | Hc].
  { exact (parse_many_colons _ Hc). }
  rewrite count_colon_join in Hc.
  assert (Hh : contains ":" h = false) by (apply contains_false_count; lia).
  assert (Hp : contains ":" p = false) by (apply contains_false_count; lia).
  rewrite (parse_one_colon h p Hh Hp).
  destruct (int p) as [n|e] eqn:E.
  - exfalso. apply int_ok_chars in E. apply Exists_exists in Hbad as (c & Hin & Hc').
    rewrite Forall_forall in E. specialize (E c Hin). congruence.
  - cbn. now rewrite (int_raises_value_error p e E).
Qed.

Lemma parse_domain_with_port_refuses_foreign_port_char_witness :
  parse_domain_with_port ("https" +:+ ":" +:+ "//example.org") = Raise ValueError.
Proof.
  apply (parse_domain_with_port_refuses_foreign_port_char "https" "//example.org").
  apply Exists_cons_hd. reflexivity.
Defined.

(** ** Signed numerals *)

Lemma lstrip_head (c : ascii) (l : list ascii) :
  is_space c = false -> lstrip (c :: l) = c :: l.
Proof. intros H. cbn [lstrip]. now rewrite H. Qed.

Lemma strip_signed_digits (sign : ascii) (ds : list nat) :
  is_space sign = false -> ds <> [] -> Forall (fun d => (d < 10)%nat) ds ->
  strip (sign :: map digit_char ds) = sign :: map digit_char ds.
Proof.
  intros Hsign Hne Hd. unfold strip. rewrite (lstrip_head sign _ Hsign).
  cbn [rev]. rewrite <- map_rev.
  assert (Hrev : Forall (fun d => (d < 10)%nat) (rev ds)) by now apply Forall_rev.
  destruct (rev ds) as [|d ds'] eqn:E.
  { apply (f_equal (@rev nat)) in E. rewrite rev_involutive in E. now subst. }
  inversion Hrev as [|? ? Hd0 _]; subst.
  cbn [map app]. rewrite lstrip_head by now destruct (digit_char_cases d Hd0).
  change (digit_char d :: map digit_char ds' ++ [sign])
    with (map digit_char (d :: ds') ++ [sign]).
  rewrite <- E, rev_app_distr, map_rev, rev_involutive. reflexivity.
Qed.

Lemma int_signed_digits (negative : bool) (ds : list nat) :
  ds <> [] -> Forall (fun d => (d < 10)%nat) ds ->
  (length ds <= int_max_str_digits)%nat ->
  int (String (if negative then "-" else "+")%char (digits_text ds))
  = Ok (if negative then - digits_value ds else digits_value ds).
Proof.
  intros Hne H Hlen. unfold int, digits_text.
  cbn [String.list_ascii_of_string].
  rewrite String.list_ascii_of_string_of_list_ascii.
  rewrite strip_signed_digits by (try assumption; now destruct negative).
  destruct ds as [|d ds]; [congruence|].
  pose proof (scan_digits_digits (d :: ds) 0 0 H) as Hs.
  inversion H as [|? ? Hd Hds]; subst.
  destruct (digit_char_cases d Hd) as (_ & Hu & _ & _ & _).
  change (map digit_char (d :: ds)) with (digit_char d :: map digit_char ds) in *.
  destruct negative; cbv beta iota;
    [change (Ascii.eqb "-" "-") with true
    |change (Ascii.eqb "+" "-") with false; change (Ascii.eqb "+" "+") with true];
    cbv beta iota; rewrite Hu, Hs;
    (destruct (Nat.ltb_spec int_max_str_digits (0 + length (d :: ds))); [lia|]);
    reflexivity.
Qed.

(** X3 — A sign before the digits of the port text is read: after "-"
    the parser returns the negated number, after "+" the number itself. *)
Theorem parse_domain_with_port_reads_sign (h : string) (ds : list nat) :
  contains ":" h = false -> ds <> [] ->
  Forall (fun d => (d < 10)%nat) ds -> (length ds <= int_max_str_digits)%nat ->
  parse_domain_with_port (h +:+ ":" +:+ String "-" (digits_text ds))
  = Ok {| domain := h; port := - digits_value ds |} /\
  parse_domain_with_port (h +:+ ":" +:+ String "+" (digits_text ds))
  = Ok {| domain := h; port := digits_value ds |}.
Proof.
  intros Hh Hne Hd Hlen.
  assert (Hp : forall sign : ascii, Ascii.eqb sign ":" = false ->
                 contains ":" (String sign (digits_text ds)) = false).
  { intros sign Hs. cbn [contains]. rewrite Hs. unfold digits_text. clear Hne Hlen.
    induction Hd as [|d ds Hd _ IH];
      cbn [map String.string_of_list_ascii contains]; [reflexivity|].
    rewrite IH. do 10 (destruct d as [|d]; [reflexivity|]). lia. }
  split.
  - rewrite (parse_one_colon h _ Hh (Hp "-"%char eq_refl)).
    now rewrite (int_signed_digits true ds Hne Hd Hlen).
  - rewrite (parse_one_colon h _ Hh (Hp "+"%char eq_refl)).
    now rewrite (int_signed_digits false ds Hne Hd Hlen).
Qed.

Lemma parse_domain_with_port_reads_sign_witness :
  parse_domain_with_port ("example.org" +:+ ":" +:+ String "-" (digits_text [4; 4; 3]%nat))
  = Ok {| domain := "example.org"; port := - digits_value [4; 4; 3]%nat |} /\
  parse_domain_with_port ("example.org" +:+ ":" +:+ String "+" (digits_text [4; 4; 3]%nat))
  = Ok {| domain := "example.org"; port := digits_value [4; 4; 3]%nat |}.
Proof.
  apply (parse_domain_with_port_reads_sign "example.org" [4; 4; 3]%nat);
    [reflexivity | discriminate | repeat constructor | vm_compute; lia].
Defined.

(** ** Flattening, further *)

Lemma tuple_to_dict_loop_union (items : list RDN) (data : gmap string string) :
  tuple_to_dict_loop items data
  = (d ← tuple_to_dict_loop items ∅; Ok (d ∪ data)).
Proof.
  revert data. induction items as [|item items IH]; intros data; cbn [tuple_to_dict_loop].
  - cbn. now rewrite (left_id_L ∅ (∪)).
  - destruct item as [|[name value] others]; [reflexivity|].
    rewrite (IH (<[name:=value]> data)), (IH (<[name:=value]> ∅)).
    destruct (tuple_to_dict_loop items ∅) as [d|e]; [|reflexivity].
    cbn. f_equal. rewrite insert_empty, (insert_union_singleton_l data).
    now rewrite (assoc_L (∪)).
Qed.

(** X4 — Flattening a sequence in two parts and merging gives the
    flattening of the whole, with the entries of the later part taking
    precedence; the whole raises when a part does. *)
Theorem tuple_to_dict_concat (front back : list RDN) :
  _tuple_to_dict (front ++ back)
  = (first ← _tuple_to_dict front; second ← _tuple_to_dict back; Ok (second ∪ first)).
Proof.
  unfold _tuple_to_dict. rewrite tuple_to_dict_loop_app.
  destruct (tuple_to_dict_loop front ∅) as [first|e]; [|reflexivity].
  cbn [mbind result_bind]. apply tuple_to_dict_loop_union.
Qed.

(** X5 — The flat mapping holds nothing but what the groups give: its
    keys are exactly the names that lead a group, and the value under a
    key is the value some group gives that name. *)
Theorem tuple_to_dict_entries (items : list RDN) (d : gmap string string) (k : string) :
  _tuple_to_dict items = Ok d ->
  (is_Some (d !! k) <->
   Exists (fun item => exists v others, item = (k, v) :: others) items) /\
  (forall v, d !! k = Some v ->
     Exists (fun item => exists others, item = (k, v) :: others) items).
Proof.
  unfold _tuple_to_dict. intros E. split; [split|].
  - intros [v Hv]. destruct (tuple_to_dict_loop_from _ _ _ _ _ E Hv) as [Hex | Hin].
    + eapply Exists_impl; [exact Hex|]. intros item [others ->]. eauto.
    + rewrite lookup_empty in Hin. discriminate.
  - revert E. generalize (∅ : gmap string string).
    induction items as [|item items IH]; intros data E Hex; [inversion Hex|].
    cbn [tuple_to_dict_loop] in E.
    destruct item as [|[name value] others]; [discriminate|].
    inversion Hex as [? ? (v & o & Hitem) | ? ? Hrest]; subst.
    + inversion Hitem; subst. apply (tuple_to_dict_loop_keeps _ _ _ _ E).
      rewrite lookup_insert_eq. eauto.
    + exact (IH _ E Hrest).
  - intros v Hv. destruct (tuple_to_dict_loop_from _ _ _ _ _ E Hv) as [Hex | Hin];
      [exact Hex|]. rewrite lookup_empty in Hin. discriminate.
Qed.

Lemma tuple_to_dict_entries_witness :
  (is_Some (({[ "commonName" := "example.com" ]} : gmap string string) !! "emailAddress") <->
   Exists (fun item => exists v others, item = ("emailAddress", v) :: others)
     [ [("commonName", "example.com"); ("emailAddress", "admin@example.com")] ]) /\
  (forall v, ({[ "commonName" := "example.com" ]} : gmap string string) !! "emailAddress"
             = Some v ->
     Exists (fun item => exists others, item = ("emailAddress", v) :: others)
       [ [("commonName", "example.com"); ("emailAddress", "admin@example.com")] ]).
Proof.
  apply (tuple_to_dict_entries
           [ [("commonName", "example.com"); ("emailAddress", "admin@example.com")] ]).
  reflexivity.
Defined.

(** ** Re-keying, further *)

(** X6 — The re-keyed name cannot tell an attribute that is missing from
    one that is present with the empty string as value. *)
Theorem name_convert_missing_is_empty (data : gmap string string) (long : string) :
  _name_convert (<[long := ""]> data) = _name_convert (delete long data).
Proof.
  assert (H : forall key, dict_get (<[long := ""]> data) key
                          = dict_get (delete long data) key).
  { intros key. unfold dict_get. rewrite lookup_insert, lookup_delete.
    now case_decide. }
  rewrite !name_convert_unfold. now rewrite !H.
Qed.

Lemma one_pair_groups_lookup (pairs : list (string * string))
    (data d : gmap string string) (k : string) :
  tuple_to_dict_loop (one_pair_groups pairs) data = Ok d ->
  d !! k = match last (filter (fun p => fst p = k) pairs) with
           | Some p => Some (snd p)
           | None => data !! k
           end.
Proof.
  revert d. induction pairs as [|p pairs IH] using rev_ind; intros d.
  - cbn. intros E. now inversion E.
  - rewrite one_pair_groups_app, tuple_to_dict_loop_app.
    destruct (tuple_to_dict_loop (one_pair_groups pairs) data) as [d'|e] eqn:E';
      [|discriminate].
    destruct p as [name value]. cbn. intros E. inversion E; subst d. clear E.
    rewrite filter_app. destruct (decide (name = k)) as [->|Hne].
    + rewrite filter_cons_True by reflexivity. rewrite filter_nil, last_snoc.
      apply lookup_insert_eq.
    + rewrite filter_cons_False by exact Hne. rewrite filter_nil, app_nil_r.
      rewrite lookup_insert_ne by exact Hne. exact (IH d' eq_refl).
Qed.

(** X7 — Flattening then re-keying a sequence of one-pair groups gives,
    under each short code, the value of the last group that carries its
    long name, and the empty string when no group does. *)
Theorem name_convert_of_tuple_to_dict (pairs : list (string * string)) :
  exists d, _tuple_to_dict (one_pair_groups pairs) = Ok d /\
    forall short long, In (short, long) name_map ->
      _name_convert d !! short
      = Some (from_option snd "" (last (filter (fun p => fst p = long) pairs))).
Proof.
  destruct (tuple_to_dict_loop_ok _ ∅ (one_pair_groups_not_empty pairs)) as [d E].
  exists d. split; [exact E|]. intros short long Hin.
  rewrite (name_convert_lookup d short long Hin). f_equal. unfold dict_get.
  rewrite (one_pair_groups_lookup pairs ∅ d long E).
  destruct (last _); [reflexivity | now rewrite lookup_empty].
Qed.

Lemma name_convert_of_tuple_to_dict_witness :
  exists d, _tuple_to_dict [ [("commonName", "old.example")];
                             [("emailAddress", "admin@example.com")];
                             [("commonName", "new.example")] ] = Ok d /\
            _name_convert d !! "CN" = Some "new.example" /\
            _name_convert d !! "O" = Some "".
Proof.
  destruct (name_convert_of_tuple_to_dict
              [("commonName", "old.example"); ("emailAddress", "admin@example.com");
               ("commonName", "new.example")]) as (d & E & H).
  exists d. split; [exact E|]. split.
  - rewrite (H "CN" "commonName") by (simpl; tauto). reflexivity.
  - rewrite (H "O" "organizationName") by (simpl; tauto). reflexivity.
Defined.

(** ** The summary: [get_cert_info] *)

Lemma name_convert_dom (data : gmap string string) :
  dom (_name_convert data) = list_to_set ["C"; "CN"; "O"; "OU"; "L"; "ST"].
Proof.
  rewrite name_convert_unfold. rewrite !dom_insert_L, dom_empty_L.
  simpl. set_solver.
Qed.

Lemma cert_item_ok_inv {A} (cert : option RawCertificate)
    (key : RawCertificate -> option A) (v : A) :
  cert_item cert key = Ok v -> exists c, cert = Some c /\ key c = Some v.
Proof.
  unfold cert_item. destruct cert as [c|]; [|discriminate].
  destruct (key c) as [x|] eqn:E; [|discriminate].
  intros H. inversion H; subst. eauto.
Qed.

(** X8 — A summary that is returned carries the input verbatim as its
    domain, port included; it is built from the certificate fetched at the
    parsed hostname and port: the address is the one resolved for the
    hostname alone, subject and issuer are the re-keyed flattenings of the
    certificate's subject and issuer, each with exactly the six short
    codes, and the two dates are the formatted [notBefore] and
    [notAfter]. *)
Theorem get_cert_info_returns (rt : Runtime) (domain_with_port : string) (info : CertInfo) :
  get_cert_info rt domain_with_port = Ok info ->
  info_domain info = domain_with_port /\
  dom (info_subject info) = list_to_set ["C"; "CN"; "O"; "OU"; "L"; "ST"] /\
  dom (info_issuer info) = list_to_set ["C"; "CN"; "O"; "OU"; "L"; "ST"] /\
  exists t cert,
    parse_domain_with_port domain_with_port = Ok t /\
    get_domain_cert rt (domain t) (port t) = Ok (Some cert) /\
    get_domain_ip rt (domain t) = Ok (info_ip info) /\
    (exists rdns d, cert_subject cert = Some rdns /\ _tuple_to_dict rdns = Ok d /\
                    info_subject info = _name_convert d) /\
    (exists rdns d, cert_issuer cert = Some rdns /\ _tuple_to_dict rdns = Ok d /\
                    info_issuer info = _name_convert d) /\
    (exists stamp, cert_notBefore cert = Some stamp /\
                   _parse_time rt stamp = Ok (info_start_date info)) /\
    (exists stamp, cert_notAfter cert = Some stamp /\
                   _parse_time rt stamp = Ok (info_expire_date info)).
Proof.
  unfold get_cert_info.
  destruct (parse_domain_with_port domain_with_port) as [t|e] eqn:Et;
    cbn [mbind result_bind]; [|discriminate].
  destruct (get_domain_cert rt (domain t) (port t)) as [cert|e] eqn:Ec;
    cbn [mbind result_bind]; [|discriminate].
  destruct (cert_item cert cert_issuer) as [irdns|e] eqn:Ei;
    cbn [mbind result_bind]; [|discriminate].
  destruct (_tuple_to_dict irdns) as [issuer|e] eqn:Eid;
    cbn [mbind result_bind]; [|discriminate].
  destruct (cert_item cert cert_subject) as [srdns|e] eqn:Es;
    cbn [mbind result_bind]; [|discriminate].
  destruct (_tuple_to_dict srdns) as [subject|e] eqn:Esd;
    cbn [mbind result_bind]; [|discriminate].
  destruct (get_domain_ip rt (domain t)) as [ip|e] eqn:Eip;
    cbn [mbind result_bind]; [|discriminate].
  destruct (cert_item cert cert_notBefore) as [nb|e] eqn:Enb;
    cbn [mbind result_bind]; [|discriminate].
  destruct (_parse_time rt nb) as [start|e] eqn:Estart;
    cbn [mbind result_bind]; [|discriminate].
  destruct (cert_item cert cert_notAfter) as [na|e] eqn:Ena;
    cbn [mbind result_bind]; [|discriminate].
  destruct (_parse_time rt na) as [expire|e] eqn:Eexpire;
    cbn [mbind result_bind]; [|discriminate].
  intros H. inversion H; subst info; clear H. cbn.
  apply cert_item_ok_inv in Ei as (c & -> & Hi).
  apply cert_item_ok_inv in Es as (c1 & Hc1 & Hs). inversion Hc1; subst c1.
  apply cert_item_ok_inv in Enb as (c2 & Hc2 & Hnb). inversion Hc2; subst c2.
  apply cert_item_ok_inv in Ena as (c3 & Hc3 & Hna). inversion Hc3; subst c3.
  split; [reflexivity|]. split; [apply name_convert_dom|].
  split; [apply name_convert_dom|].
  exists t, c. repeat split; eauto 6.
Qed.

Lemma get_cert_info_returns_witness :
  info_domain {| info_domain := "good.example:443";
                 info_ip := "192.0.2.1";
                 info_subject := _name_convert {[ "commonName" := "example.com";
                                                  "organizationName" := "Example Inc" ]};
                 info_issuer := _name_convert {[ "countryName" := "US";
                                                 "organizationName" := "Example CA";
                                                 "commonName" := "Example Root" ]};
                 info_start_date := "2020-01-01 00:00:00";
                 info_expire_date := "2030-01-01 00:00:00" |}
  = "good.example:443".
Proof.
  refine (proj1 (get_cert_info_returns Demo.fallback "good.example:443" _ _)).
  vm_compute. reflexivity.
Defined.

(** X9 — Without the certificate's fields there is no summary: when the
    handshake yields no certificate the call raises [TypeError], when the
    dict lacks [issuer] it raises [KeyError] (so it does on the empty dict
    of a certificate that was not validated), and when any of [issuer],
    [subject], [notBefore], [notAfter] is missing nothing is returned. *)
Theorem get_cert_info_needs_certificate_fields
    (rt : Runtime) (domain_with_port : string) (t : DomainInfo) :
  parse_domain_with_port domain_with_port = Ok t ->
  (get_domain_cert rt (domain t) (port t) = Ok None ->
   get_cert_info rt domain_with_port = Raise TypeError) /\
  (forall cert, get_domain_cert rt (domain t) (port t) = Ok (Some cert) ->
     cert_issuer cert = None ->
     get_cert_info rt domain_with_port = Raise KeyError) /\
  (forall cert, get_domain_cert rt (domain t) (port t) = Ok (Some cert) ->
     cert_issuer cert = None \/ cert_subject cert = None \/
     cert_notBefore cert = None \/ cert_notAfter cert = None ->
     exists e, get_cert_info rt domain_with_port = Raise e).
Proof.
  intros Ht. unfold get_cert_info. rewrite Ht. cbn [mbind result_bind].
  split; [|split].
  - intros ->. reflexivity.
  - intros cert -> Hi. cbn [mbind result_bind].
    assert (E : cert_item (Some cert) cert_issuer = Raise KeyError)
      by (unfold cert_item; now rewrite Hi).
    rewrite E. reflexivity.
  - intros cert -> Hmiss. cbn [mbind result_bind].
    repeat (stage; [|eauto]).
    exfalso. unfold cert_item in *.
    destruct Hmiss as [H | [H | [H | H]]]; rewrite H in *; discriminate.
Qed.

Lemma get_cert_info_needs_certificate_fields_witness :
  get_cert_info Demo.unverified "selfsigned.example" = Raise KeyError.
Proof.
  destruct (get_cert_info_needs_certificate_fields Demo.unverified "selfsigned.example"
              {| domain := "selfsigned.example"; port := 443 |} eq_refl) as (_ & H & _).
  apply (H Demo.empty_cert); reflexivity.
Defined.

(** * The timestamp of a certificate, rendered *)

(** ** Checking a property over a range of integers *)

Lemma forall_in_range (P : Z -> bool) (lo : Z) (len : nat) :
  forallb (fun k => P (lo + Z.of_nat k)) (seq 0 len) = true ->
  forall z, lo <= z < lo + Z.of_nat len -> P z = true.
Proof.
  intros H z Hz. rewrite forallb_forall in H.
  specialize (H (Z.to_nat (z - lo))).
  replace (lo + Z.of_nat (Z.to_nat (z - lo))) with z in H by lia.
  apply H. apply in_seq. lia.
Qed.

Lemma year_has_four_digits (y : Z) :
  1000 <= y <= 9999 -> matches [Digit; Digit; Digit; Digit] (decimal y) = true.
Proof.
  intros H.
  apply (forall_in_range (fun y => matches [Digit; Digit; Digit; Digit] (decimal y))
           1000 (Z.to_nat 9000)); [vm_compute; reflexivity | lia].
Qed.

Lemma two_digits_match (n : Z) :
  0 <= n <= 99 -> matches [Digit; Digit] (two_digits n) = true.
Proof.
  intros H.
  apply (forall_in_range (fun n => matches [Digit; Digit] (two_digits n)) 0 100);
    [vm_compute; reflexivity | lia].
Qed.

Lemma month_day_bounds (leapyear : bool) (n : Z) :
  0 <= n < 365 ->
  1 <= fst (month_day leapyear n) <= 12 /\ 1 <= snd (month_day leapyear n) <= 31.
Proof.
  intros H.
  pose (P := fun n => let md := month_day leapyear n in
                      (1 <=? fst md) && (fst md <=? 12)
                      && (1 <=? snd md) && (snd md <=? 31)).
  assert (HP : P n = true).
  { apply (forall_in_range P 0 365); [destruct leapyear; vm_compute; reflexivity | lia]. }
  unfold P in HP. cbv zeta in HP. lia.
Qed.

(** ** The fields of an instant *)

Lemma ord2ymd_month_day (n : Z) :
  1 <= snd (fst (ord2ymd n)) <= 12 /\ 1 <= snd (ord2ymd n) <= 31.
Proof.
  unfold ord2ymd. cbv zeta.
  destruct (_ || _); [cbn; lia|].
  match goal with
  | |- context [month_day ?l ?m] =>
      pose proof (month_day_bounds l m) as H; destruct (month_day l m) as [mo d]
  end.
  cbn in *. apply H.
  match goal with
  | |- 0 <= ?a mod 365 < 365 => pose proof (Z.mod_pos_bound a 365); lia
  end.
Qed.

Lemma year_civil_of (t : Z) :
  year (civil_of t) = fst (fst (ord2ymd (t / 86400 + EPOCH_ORDINAL))).
Proof. unfold civil_of. now destruct (ord2ymd _) as [[y m] d]. Qed.

Lemma civil_of_fields (t : Z) :
  1 <= month (civil_of t) <= 12 /\ 1 <= day (civil_of t) <= 31 /\
  0 <= hour (civil_of t) <= 23 /\ 0 <= minute (civil_of t) <= 59 /\
  0 <= second (civil_of t) <= 59.
Proof.
  pose proof (ord2ymd_month_day (t / 86400 + EPOCH_ORDINAL)) as H.
  unfold civil_of. destruct (ord2ymd _) as [[y m] d]. cbn in *.
  split; [tauto|]. split; [tauto|].
  Z.to_euclidean_division_equations. lia.
Qed.

(** ** The rendering and the canonical format *)

Lemma matches_app (p1 p2 : list slot) (s1 s2 : list ascii) :
  matches p1 s1 = true -> matches (p1 ++ p2) (s1 ++ s2) = matches p2 s2.
Proof.
  revert s1. induction p1 as [|[|l] p1 IH]; intros [|c s1]; cbn; try discriminate;
    try reflexivity.
  - intros H. apply andb_true_iff in H as [-> H]. now apply IH.
  - intros H. apply andb_true_iff in H as [-> H]. now apply IH.
Qed.

Lemma strftime_chars_datetime_format (c : civil) :
  strftime_chars (chars DATETIME_FORMAT) c
  = decimal (year c) ++ "-"%char :: two_digits (month c) ++ "-"%char ::
    two_digits (day c) ++ " "%char :: two_digits (hour c) ++ ":"%char ::
    two_digits (minute c) ++ ":"%char :: two_digits (second c) ++ [].
Proof. reflexivity. Qed.

Lemma chars_of_list (l : list ascii) : chars (String.string_of_list_ascii l) = l.
Proof. apply String.list_ascii_of_string_of_list_ascii. Qed.

Lemma strftime_canonical (c : civil) :
  1000 <= year c <= 9999 ->
  0 <= month c <= 99 -> 0 <= day c <= 99 -> 0 <= hour c <= 99 ->
  0 <= minute c <= 99 -> 0 <= second c <= 99 ->
  canonical_format (strftime DATETIME_FORMAT c) = true.
Proof.
  intros Hy Hm Hd Hh Hmi Hs. unfold canonical_format, strftime.
  rewrite chars_of_list, strftime_chars_datetime_format.
  change canonical_pattern
    with ([Digit; Digit; Digit; Digit] ++ Lit "-" ::
          [Digit; Digit] ++ Lit "-" :: [Digit; Digit] ++ Lit " " ::
          [Digit; Digit] ++ Lit ":" :: [Digit; Digit] ++ Lit ":" ::
          [Digit; Digit] ++ []).
  rewrite (matches_app _ _ _ _ (year_has_four_digits _ Hy)). cbn [matches Ascii.eqb].
  rewrite (matches_app _ _ _ _ (two_digits_match _ Hm)). cbn [matches].
  rewrite (matches_app _ _ _ _ (two_digits_match _ Hd)). cbn [matches].
  rewrite (matches_app _ _ _ _ (two_digits_match _ Hh)). cbn [matches].
  rewrite (matches_app _ _ _ _ (two_digits_match _ Hmi)). cbn [matches].
  rewrite (matches_app _ _ _ _ (two_digits_match _ Hs)). reflexivity.
Qed.

(** ** The instants of a certificate's stamp *)

Lemma valid_civil_fields (c : civil) :
  valid_civil c = true ->
  1000 <= year c <= 9999 /\ 1 <= month c <= 12 /\
  1 <= day c <= days_in_month (year c) (month c) /\
  0 <= hour c <= 23 /\ 0 <= minute c <= 59 /\ 0 <= second c <= 59.
Proof. unfold valid_civil. rewrite !andb_true_iff, !Z.leb_le. tauto. Qed.

Lemma day_of_year_bound (y m d : Z) :
  1 <= m <= 12 -> 1 <= d <= days_in_month y m ->
  1 <= days_before_month y m + d <= 365 + (if is_leap y then 1 else 0).
Proof.
  intros Hm. unfold days_in_month, days_before_month.
  assert (Hcases : m = 1 \/ m = 2 \/ m = 3 \/ m = 4 \/ m = 5 \/ m = 6 \/ m = 7 \/
                   m = 8 \/ m = 9 \/ m = 10 \/ m = 11 \/ m = 12) by lia.
  destruct (is_leap y);
    repeat (destruct Hcases as [-> | Hcases];
            [repeat match goal with
                    | |- context [item ?t ?i] =>
                        let v := eval vm_compute in (item t i) in
                        change (item t i) with v
                    end; cbn; lia|]);
    subst;
    repeat match goal with
           | |- context [item ?t ?i] =>
               let v := eval vm_compute in (item t i) in
               change (item t i) with v
           end; cbn; lia.
Qed.

Lemma ymd2ord_bounds (y m d : Z) :
  1000 <= y <= 9999 -> 1 <= m <= 12 -> 1 <= d <= days_in_month y m ->
  364000 <= ymd2ord y m d <= MAXORDINAL.
Proof.
  intros Hy Hm Hd. pose proof (day_of_year_bound y m d Hm Hd) as Hdoy.
  unfold ymd2ord, days_before_year, MAXORDINAL.
  destruct (Z.eq_dec y 9999) as [-> | Hne].
  - change (is_leap 9999) with false in Hdoy. revert Hdoy.
    generalize (days_before_month 9999 m). intros dbm Hdoy.
    Z.to_euclidean_division_equations. lia.
  - assert (Hleap : 0 <= (if is_leap y then 1 else 0) <= 1) by (destruct (is_leap y); lia).
    revert Hdoy Hleap. generalize (if is_leap y then 1 else 0).
    generalize (days_before_month y m). intros dbm leap Hdoy Hleap.
    Z.to_euclidean_division_equations. lia.
Qed.

Lemma posix_ordinal (c : civil) :
  valid_civil c = true ->
  posix c / 86400 + EPOCH_ORDINAL = ymd2ord (year c) (month c) (day c).
Proof.
  intros H. apply valid_civil_fields in H as (_ & _ & _ & Hh & Hmi & Hs).
  unfold posix. generalize (ymd2ord (year c) (month c) (day c)). intros o.
  Z.to_euclidean_division_equations. lia.
Qed.

Lemma posix_representable (c : civil) :
  valid_civil c = true -> representable (posix c) = true.
Proof.
  intros H. unfold representable. cbv zeta. rewrite (posix_ordinal c H).
  apply valid_civil_fields in H as (Hy & Hm & Hd & _).
  pose proof (ymd2ord_bounds _ _ _ Hy Hm Hd). unfold MAXORDINAL in *.
  apply andb_true_iff. rewrite Z.ltb_lt, Z.leb_le. lia.
Qed.

(** The local time of a stamp is representable as soon as its year has
    four digits. *)
Lemma local_representable (c : civil) (off : Z) :
  valid_civil c = true -> -86400 < off < 86400 ->
  year (civil_of (posix c + off)) <= 9999 ->
  representable (posix c + off) = true.
Proof.
  intros H Hoff Hy. pose proof (posix_ordinal c H) as Ho.
  apply valid_civil_fields in H as (Hyc & Hm & Hd & _).
  pose proof (ymd2ord_bounds _ _ _ Hyc Hm Hd) as Hb. unfold MAXORDINAL in Hb.
  rewrite year_civil_of in Hy. unfold representable. cbv zeta.
  revert Hy Ho Hb. generalize (ymd2ord (year c) (month c) (day c)). intros o Hy Ho Hb.
  assert (Hnear : posix c / 86400 - 1 <= (posix c + off) / 86400 <= posix c / 86400 + 1)
    by (Z.to_euclidean_division_equations; lia).
  destruct (Z.eq_dec ((posix c + off) / 86400 + EPOCH_ORDINAL) (MAXORDINAL + 1))
    as [E | Hne].
  - rewrite E in Hy. vm_compute in Hy. contradiction.
  - unfold MAXORDINAL in *. apply andb_true_iff. rewrite Z.ltb_lt, Z.leb_le. lia.
Qed.

(** ** [_parse_time] on a certificate's stamp *)

Lemma clock_contract (gmtoff : Z -> Z) :
  TimeContract (Clock.runtime gmtoff) Clock.view gmtoff.
Proof.
  split.
  - intros stamp c Hc Hv. exists (posix c, 0). cbn. unfold Clock.parse.
    now rewrite Hc, Hv.
  - intros dt ts off Hview _ Hr Hr'. inversion Hview; subst dt.
    exists (ts, gmtoff ts). cbn. unfold Clock.astimezone. cbn. now rewrite Hr, Hr'.
  - intros dt ts off fmt Hview _. inversion Hview; subst dt. reflexivity.
Qed.



